(** * Christmas-tree: gesture mapping, damped interpolation, placement, snow

    A shallow embedding of the numeric core of the scene:
    - [HandTracker]   (components/HandTracker.tsx): ratio smoothing and the
                      open/closed hysteresis of [predictWebcam];
    - [App]           (App.tsx): [handleGesture] and [handleHandMove];
    - [InstancedShape] (components/InstancedShape.tsx): the target buffers
                      and the per-frame interpolation of [useFrame];
    - [SnowSystem]    (components/SnowSystem.tsx): [resetParticle], the mode
                      effect and the per-frame particle update;
    - [Experience]    (components/Experience.tsx): the camera rotation of
                      [useFrame];
    - [TreeTopper]    (components/TreeTopper.tsx): the outline of the star
                      and its [useFrame];
    - [FloatingGifts] (components/FloatingGifts.tsx): the ribbon strip, the
                      gift box frame, the colour shuffle and the placement.

    Numbers.  A JavaScript [number] is read as a real number: [+ - * /],
    [Math.sqrt], [Math.sin], [Math.cos] and [Math.PI] are the operations of
    [R]; rounding, NaN and the infinities of binary64 are outside the model,
    and so is the rounding to binary32 of a write to a [Float32Array].
    [Math.random()] is a draw from an explicit stream of reals.

    The program computes in binary64 and keeps positions and particles in
    binary32.  Where a property says what a slot holds, it names the
    expression that is assigned to it; where it bounds a computed value, the
    further properties use closed bounds that rounding keeps, or a margin
    ([tolerance], or the margin the statement names) where the computed
    value can sit a rounding error off the exact one.  [Binary64] gives the
    functions that only add, multiply and compare in binary64, and the write
    to a [Float32Array], to run them on the inputs of the scenarios. *)

From stdpp Require Import base list strings.
From Stdlib Require Import Reals Lra Lia.
From Stdlib Require Floats.

Open Scope R_scope.

(** ** Numbers and comparisons *)

(** [a < b], [a > b], [a <= b] and [a === b] of the source, as booleans. *)
Definition ltb (a b : R) : bool := if Rlt_dec a b then true else false.
Definition gtb (a b : R) : bool := ltb b a.
Definition leb (a b : R) : bool := if Rle_dec a b then true else false.
Definition eqb (a b : R) : bool := if Req_dec_T a b then true else false.

(** The margin that statements about values computed with [Math.PI],
    [Math.sin] and [Math.cos] leave for rounding. *)
Definition tolerance : R := 1 / 1000000000.

(** ** Mutable buffers, the random source and loops *)

(** A [Float32Array] is a list of reals of fixed length.  A read past the end
    gives [0] here ([undefined] in the source); a write past the end is
    dropped, as a typed array drops it.  The list keeps the number written,
    the typed array the nearest binary32 value ([Binary64.fround]). *)
Definition get (buf : list R) (i : nat) : R := nth i buf 0.
Definition set (buf : list R) (i : nat) (v : R) : list R := <[i := v]> buf.

(** [new Float32Array(n)]. *)
Definition Float32Array (n : nat) : list R := replicate n 0.

(** The future results of [Math.random()], next one first. *)
Definition Rng : Type := nat -> R.

(** Every draw lies in [0, 1). *)
Definition unit_interval (g : Rng) : Prop := forall n, 0 <= g n < 1.

(** Code that reads and writes a store of type [S]. *)
Definition St (S A : Type) : Type := S -> A * S.

Definition ret {S A : Type} (a : A) : St S A := fun s => (a, s).

Definition bind {S A B : Type} (m : St S A) (k : A -> St S B) : St S B :=
  fun s => match m s with (a, s') => k a s' end.

Notation "x <- m ;; k" := (bind m (fun x => k))
  (at level 100, m at next level, right associativity).
Notation "m ;; k" := (bind m (fun _ => k))
  (at level 100, right associativity).

(** [for (let i = 0; i < n; i++) body(i)]. *)
Fixpoint for_loop {S : Type} (n : nat) (body : nat -> St S unit) : St S unit :=
  match n with
  | O => ret tt
  | S k => for_loop k body ;; body k
  end.

(** The store left by a computation. *)
Definition exec {S A : Type} (m : St S A) (s : S) : S := snd (m s).

(** ** types.ts *)

Inductive InteractionState : Set := Tree | Exploded.

Definition InteractionState_eqb (a b : InteractionState) : bool :=
  match a, b with
  | Tree, Tree | Exploded, Exploded => true
  | _, _ => false
  end.

(** ** HandTracker.tsx *)

Module HandTracker.

(** The three refs of the component. *)
Record Refs : Type := mkRefs {
  smoothedX : R;
  smoothedRatio : R;
  isOpenState : bool
}.

(** [useRef(0.5)], [useRef(1.2)], [useRef(false)]. *)
Definition init : Refs := mkRefs 0.5 1.2 false.

(** What one detection frame hands to the callbacks: the argument of
    [onGestureChange], when it is called, and the argument of [onHandMove]. *)
Record Calls : Type := mkCalls {
  gesture : option bool;
  handMove : R
}.

Definition alpha : R := 0.25.
Definition posAlpha : R := 0.2.

(** The smoothing assignment of [smoothedRatio.current]. *)
Definition smooth (s rawRatio : R) : R := s + (rawRatio - s) * alpha.

(** The HYSTERESIS block: the new [isOpenState.current] and the argument of
    [onGestureChange] when the callback fires. *)
Definition hysteresis (isOpen : bool) (ratio : R) : bool * option bool :=
  if negb isOpen && gtb ratio 1.35 then (true, Some true)
  else if isOpen && ltb ratio 1.25 then (false, Some false)
  else (isOpen, None).

(** A hand landmark, with the two coordinates the tracker reads. *)
Record Landmark : Type := mkLandmark {
  lx : R;
  ly : R
}.

(** [landmarks[i]]; past the end of the list the source has [undefined], here
    it is the point (0, 0).  The detector hands over 21 landmarks a hand. *)
Definition landmark (landmarks : list Landmark) (i : nat) : Landmark :=
  nth i landmarks (mkLandmark 0 0).

Definition tips : list nat := [8; 12; 16; 20]%nat.
Definition mcps : list nat := [5; 9; 13; 17]%nat.

Definition dist (a b : Landmark) : R :=
  sqrt ((lx a - lx b) ^ 2 + (ly a - ly b) ^ 2).

(** The loop that sums the distances: the store is
    [(tipDistSum, mcpDistSum)]. *)
Definition sums (landmarks : list Landmark) : R * R :=
  let wrist := landmark landmarks 0 in
  exec (for_loop 4 (fun i s =>
          (tt, (fst s + dist (landmark landmarks (nth i tips 0%nat)) wrist,
                snd s + dist (landmark landmarks (nth i mcps 0%nat)) wrist))))
       (0, 0).

Definition rawRatio (landmarks : list Landmark) : R :=
  fst (sums landmarks) / snd (sums landmarks).

(** The body of [predictWebcam] for a frame with a detected hand. *)
Definition onHand (st : Refs) (landmarks : list Landmark) : Refs * Calls :=
  let wrist := landmark landmarks 0 in
  let ratio := smooth (smoothedRatio st) (rawRatio landmarks) in
  let h := hysteresis (isOpenState st) ratio in
  let targetX := 1 - lx wrist in
  let x := smoothedX st + (targetX - smoothedX st) * posAlpha in
  (mkRefs x ratio (fst h), mkCalls (snd h) x).

(** What a call of [predictWebcam] finds: [None] when the video or the
    detector is not ready or the video time has not moved, else
    [results.landmarks], one list of landmarks a detected hand. *)
Definition Frame : Type := option (list (list Landmark)).

(** One call of [predictWebcam].  A frame with no hand touches nothing and
    calls nothing. *)
Definition predictWebcam (st : Refs) (frame : Frame) : Refs * option Calls :=
  match frame with
  | Some (landmarks :: _) =>
      let r := onHand st landmarks in (fst r, Some (snd r))
  | _ => (st, None)
  end.

(** The arguments of the successive [onGestureChange] calls over a run of
    the hysteresis block on the given ratios. *)
Fixpoint hysteresis_events (isOpen : bool) (ratios : list R) : list bool :=
  match ratios with
  | [] => []
  | r :: rs =>
      let h := hysteresis isOpen r in
      match snd h with
      | Some e => e :: hysteresis_events (fst h) rs
      | None => hysteresis_events (fst h) rs
      end
  end.

(** The values [smoothedRatio.current] takes at the hysteresis block over a
    run of [predictWebcam]. *)
Fixpoint smoothed_trace (st : Refs) (frames : list Frame) : list R :=
  match frames with
  | [] => []
  | f :: fs =>
      let r := predictWebcam st f in
      match snd r with
      | Some _ => smoothedRatio (fst r) :: smoothed_trace (fst r) fs
      | None => smoothed_trace (fst r) fs
      end
  end.

(** The arguments of the successive [onGestureChange] calls over a run of
    [predictWebcam]. *)
Fixpoint gesture_events (st : Refs) (frames : list Frame) : list bool :=
  match frames with
  | [] => []
  | f :: fs =>
      let r := predictWebcam st f in
      match snd r with
      | Some (mkCalls (Some e) _) => e :: gesture_events (fst r) fs
      | _ => gesture_events (fst r) fs
      end
  end.

(** A hand for the examples: the wrist at (0.5, 0.5), the four knuckles 0.1
    to its right, the four finger tips [0.1 * r] to its right. *)
Definition hand (r : R) : list Landmark :=
  let w := mkLandmark 0.5 0.5 in
  let k := mkLandmark 0.6 0.5 in
  let t := mkLandmark (0.5 + 0.1 * r) 0.5 in
  [w; w; w; w; w; k; w; w; t; k; w; w; t; k; w; w; t; k; w; w; t].

(** No two neighbours of the list are equal. *)
Fixpoint alternating (l : list bool) : Prop :=
  match l with
  | a :: (b :: _) as tl => a <> b /\ alternating tl
  | _ => True
  end.

(** The sequence never decreases. *)
Fixpoint increasing (l : list R) : Prop :=
  match l with
  | a :: (b :: _) as tl => a <= b /\ increasing tl
  | _ => True
  end.

(** The refs after a run of [predictWebcam]. *)
Fixpoint run (st : Refs) (frames : list Frame) : Refs :=
  match frames with
  | [] => st
  | f :: fs => run (fst (predictWebcam st f)) fs
  end.

(** The arguments of the successive [onHandMove] calls over a run of
    [predictWebcam]. *)
Fixpoint hand_moves (st : Refs) (frames : list Frame) : list R :=
  match frames with
  | [] => []
  | f :: fs =>
      let r := predictWebcam st f in
      match snd r with
      | Some c => handMove c :: hand_moves (fst r) fs
      | None => hand_moves (fst r) fs
      end
  end.

(** The frame shows a hand: [results.landmarks.length > 0]. *)
Definition has_hand (f : Frame) : bool :=
  match f with
  | Some (_ :: _) => true
  | _ => false
  end.

(** In every frame with a hand, [wrist.x] is a normalized coordinate. *)
Definition wrist_in_view (f : Frame) : Prop :=
  match f with
  | Some (landmarks :: _) => 0 <= lx (landmark landmarks 0) <= 1
  | _ => True
  end.

End HandTracker.

(** ** App.tsx *)

Module App.

(** [handleGesture]: the state updater passed to [setMode]. *)
Definition handleGesture (isOpen : bool) (prev : InteractionState) : InteractionState :=
  let targetMode := if isOpen then Exploded else Tree in
  if negb (InteractionState_eqb prev targetMode) then targetMode else prev.

Definition CENTER : R := 0.5.
Definition DEADZONE : R := 0.05.
Definition SENSITIVITY : R := 6.0.

(** [handleHandMove]: the value handed to [setRotationSpeed]. *)
Definition handleHandMove (x : R) : R :=
  if ltb x (CENTER - DEADZONE) then
    let dist := (CENTER - DEADZONE) - x in
    - dist * SENSITIVITY
  else if gtb x (CENTER + DEADZONE) then
    let dist := x - (CENTER + DEADZONE) in
    dist * SENSITIVITY
  else 0.

(** The mode after the successive calls [handleGesture(e)] for the given
    events, each through [setMode(prev => ...)]. *)
Definition modeAfter (events : list bool) (m : InteractionState) : InteractionState :=
  fold_left (fun prev e => handleGesture e prev) events m.

End App.

(** ** Binary64 and binary32 *)

Module Binary64.
Import Floats.
#[local] Open Scope float_scope.
#[local] Set Warnings "-inexact-float".

(** [handleHandMove] of App.tsx. *)
Definition handleHandMove (x : float) : float :=
  let CENTER := 0.5 in
  let DEADZONE := 0.05 in
  let SENSITIVITY := 6.0 in
  if x <? CENTER - DEADZONE then
    let dist := (CENTER - DEADZONE) - x in
    - dist * SENSITIVITY
  else if CENTER + DEADZONE <? x then
    let dist := x - (CENTER + DEADZONE) in
    dist * SENSITIVITY
  else 0.

(** The smoothing and the HYSTERESIS block of HandTracker.tsx: from
    [smoothedRatio.current], [isOpenState.current] and the raw ratio to their
    new values and the argument of [onGestureChange], if it is called. *)
Definition onRatio (st : float * bool) (rawRatio : float)
  : (float * bool) * option bool :=
  let alpha := 0.25 in
  let smoothed := fst st + (rawRatio - fst st) * alpha in
  if negb (snd st) && (1.35 <? smoothed) then ((smoothed, true), Some true)
  else if snd st && (smoothed <? 1.25) then ((smoothed, false), Some false)
  else ((smoothed, snd st), None).

(** The calls of [onGestureChange] over a run on the given raw ratios. *)
Fixpoint events (st : float * bool) (rawRatios : list float) : list bool :=
  match rawRatios with
  | [] => []
  | r :: rs =>
      let h := onRatio st r in
      match snd h with
      | Some e => e :: events (fst h) rs
      | None => events (fst h) rs
      end
  end.

(** What a [Float32Array] keeps of a number written to it ([Math.fround]):
    the nearest binary32 value, ties to even. *)
Definition fround (x : float) : float :=
  match Prim2SF x with
  | S754_finite s m e => SF2Prim (SpecFloat.binary_round 24 128 s m e)
  | _ => x
  end.

(** [THREE.MathUtils.lerp(x, y, t)]. *)
Definition MathUtils_lerp (x y t : float) : float := (1 - t) * x + t * y.

(** One coordinate of the loop body of [useFrame] of InstancedShape.tsx:
    [cx + (tx - cx) * lambda] in binary64, written to
    [currentPositions.current]. *)
Definition move (cx tx lambda : float) : float :=
  fround (cx + (tx - cx) * lambda).

(** The coordinate after [n] frames of [delta] seconds each. *)
Fixpoint frames (n : nat) (tx delta cx : float) : float :=
  match n with
  | O => cx
  | S k => move (frames k tx delta cx) tx (4 * delta)
  end.

End Binary64.

(** ** InstancedShape.tsx *)

Module InstancedShape.

(** *** 1. Target positions *)

(** The buffers the [useMemo] fills, with the random source next to them.
    [colorArray] is left out: its entries come from [THREE.Color]; the two
    draws each instance spends on its colour are kept. *)
Record Gen : Type := mkGen {
  tree : list R;
  explode : list R;
  rng : Rng
}.

(** [Math.random()]. *)
Definition random : St Gen R :=
  fun s => (rng s 0%nat, mkGen (tree s) (explode s) (fun n => rng s (S n))).

(** [tree[i] = v] and [explode[i] = v]. *)
Definition set_tree (i : nat) (v : R) : St Gen unit :=
  fun s => (tt, mkGen (set (tree s) i v) (explode s) (rng s)).
Definition set_explode (i : nat) (v : R) : St Gen unit :=
  fun s => (tt, mkGen (tree s) (set (explode s) i v) (rng s)).

(** The constants [y], [level], [radius] and [theta] of iteration [i]. *)
Definition y (count i : nat) : R := (INR i / INR count) * 10 - 5.
Definition level (count i : nat) : R := (y count i + 5) / 10.
Definition radius (count i : nat) : R := 3.5 * (1 - level count i) + 0.2.
Definition theta (i : nat) : R := INR i * 2.39996.
Definition jitter : R := 0.3.

(** The body of the loop over the instances. *)
Definition place (count i : nat) : St Gen unit :=
  let x := radius count i * cos (theta i) in
  let z := radius count i * sin (theta i) in
  u <- random ;;
  set_tree (i * 3) (x + (u - 0.5) * jitter) ;;
  set_tree (i * 3 + 1) (y count i) ;;
  u <- random ;;
  set_tree (i * 3 + 2) (z + (u - 0.5) * jitter) ;;
  let phi := acos (-1 + (2 * INR i) / INR count) in
  let sqrtPi := sqrt (INR count * PI) * phi in
  u <- random ;;
  let exRadius := 15 + u * 10 in
  set_explode (i * 3) (exRadius * cos sqrtPi * sin phi) ;;
  set_explode (i * 3 + 1) (exRadius * sin sqrtPi * sin phi) ;;
  set_explode (i * 3 + 2) (exRadius * cos phi) ;;
  _ <- random ;;
  _ <- random ;;
  ret tt.

(** The [targets] memo: both buffers are allocated, then filled. *)
Definition targets (count : nat) (g : Rng) : Gen :=
  exec (for_loop count (place count))
       (mkGen (Float32Array (count * 3)) (Float32Array (count * 3)) g).

(** *** 3. Animation loop *)

(** The instance's three slots of a position buffer. *)
Definition position (buf : list R) (i : nat) : R * R * R :=
  (get buf (i * 3), get buf (i * 3 + 1), get buf (i * 3 + 2)).

(** The interpolation formula [a + (b - a) * t] of the loop body. *)
Definition lerp (a b t : R) : R := a + (b - a) * t.

(** The body of the loop of [useFrame], on [currentPositions.current]. *)
Definition move (targetArray : list R) (lambda : R) (i : nat) : St (list R) unit :=
  fun cur =>
    let ix := (i * 3)%nat in
    let iy := (i * 3 + 1)%nat in
    let iz := (i * 3 + 2)%nat in
    let cx := get cur ix in
    let cy := get cur iy in
    let cz := get cur iz in
    let tx := get targetArray ix in
    let ty := get targetArray iy in
    let tz := get targetArray iz in
    let nx := lerp cx tx lambda in
    let ny := lerp cy ty lambda in
    let nz := lerp cz tz lambda in
    (tt, set (set (set cur ix nx) iy ny) iz nz).

(** The buffer [useFrame] interpolates towards. *)
Definition targetArray (t : Gen) (mode : InteractionState) : list R :=
  if InteractionState_eqb mode Exploded then explode t else tree t.

(** [useFrame((state, delta) => ...)] on [currentPositions.current];
    [mounted] is [meshRef.current] being set. *)
Definition useFrame (mounted : bool) (count : nat) (t : Gen)
    (mode : InteractionState) (delta : R) : St (list R) unit :=
  if negb mounted then ret tt
  else
    let lambda := 4 * delta in
    for_loop count (move (targetArray t mode) lambda).

(** [currentPositions.current] after the first [n] frames, frame [k] lasting
    [deltas k] seconds, started from [cur] with the mode held fixed. *)
Fixpoint frames (count : nat) (t : Gen) (mode : InteractionState)
    (deltas : nat -> R) (n : nat) (cur : list R) : list R :=
  match n with
  | O => cur
  | S k => exec (useFrame true count t mode (deltas k))
                (frames count t mode deltas k cur)
  end.

(** Euclidean distance of two positions. *)
Definition distance (p q : R * R * R) : R :=
  let '(px, py, pz) := p in
  let '(qx, qy, qz) := q in
  sqrt ((px - qx) * (px - qx) + (py - qy) * (py - qy) + (pz - qz) * (pz - qz)).


(** The update the specification words: [current += (target - current) *
    min(1, lambda * deltaTime)] with [lambda = 4]. *)
Definition spec_update (current target deltaTime : R) : R :=
  current + (target - current) * Rmin 1 (4 * deltaTime).

(** [type: 'sphere' | 'cube']. *)
Inductive ShapeType : Set := sphere | cube.

(** The scale [useFrame] gives instance [i] at elapsed time [time]. *)
Definition scale (type : ShapeType) (time : R) (i : nat) : R :=
  let scaleBase := match type with cube => 0.3 | sphere => 0.25 end in
  let scalePulse := sin (time * 2 + INR i) * 0.05 in
  scaleBase + scalePulse.

End InstancedShape.

(** ** SnowSystem.tsx *)

Module SnowSystem.

(** [const count = 6000]. *)
Definition count : nat := 6 * 1000.

(** The particle buffer, six slots a particle
    ([x, y, z, velocityY, wobblePhase, state], state [0] falling and [1]
    landed), with the random source next to it. *)
Record Sim : Type := mkSim {
  particles : list R;
  rng : Rng
}.

(** [Math.random()]. *)
Definition random : St Sim R :=
  fun s => (rng s 0%nat, mkSim (particles s) (fun n => rng s (S n))).

(** [particles[i]], [particles[i] = v], [particles[i] += v]. *)
Definition load (i : nat) : St Sim R := fun s => (get (particles s) i, s).
Definition store (i : nat) (v : R) : St Sim unit :=
  fun s => (tt, mkSim (set (particles s) i v) (rng s)).
Definition add_to (i : nat) (v : R) : St Sim unit :=
  old <- load i ;; store i (old + v).

Definition resetParticle (i : nat) (fullRandomY : bool) : St Sim unit :=
  let i6 := (i * 6)%nat in
  let radius := 45.0 in
  u <- random ;;
  let r := sqrt u * radius in
  u <- random ;;
  let theta := u * PI * 2 in
  store i6 (r * cos theta) ;;
  u <- random ;;
  store (i6 + 1) (if fullRandomY then u * 40 + 5 else 30 + u * 15) ;;
  store (i6 + 2) (r * sin theta) ;;
  u <- random ;;
  store (i6 + 3) (0.01 + u * 0.03) ;;
  u <- random ;;
  store (i6 + 4) (u * PI * 2) ;;
  store (i6 + 5) 0.

(** The [particles] memo, for a buffer of [n] particles. *)
Definition init (n : nat) (g : Rng) : Sim :=
  exec (for_loop n (fun i => resetParticle i true))
       (mkSim (Float32Array (n * 6)) g).

(** The mode effect over [n] particles: the body of the [useEffect], which
    returns the new [prevMode.current]. *)
Definition modeEffect (n : nat) (prevMode mode : InteractionState)
  : St Sim InteractionState :=
  (if InteractionState_eqb prevMode Exploded && InteractionState_eqb mode Tree
   then for_loop n (fun i => resetParticle i false)
   else ret tt) ;;
  ret mode.

Definition groundLevel : R := -5.0.
Definition accumulationRadius : R := 4.5.
Definition accumulationHeight : R := 0.2.

(** TREE MODE, a falling particle: fall, wobble, ground detection. *)
Definition fall (time delta : R) (i : nat) : St Sim unit :=
  let i6 := (i * 6)%nat in
  vel <- load (i6 + 3) ;;
  add_to (i6 + 1) (- (vel * (delta * 60))) ;;
  ph <- load (i6 + 4) ;;
  add_to i6 (sin (time + ph) * 0.005) ;;
  ph <- load (i6 + 4) ;;
  add_to (i6 + 2) (cos (time * 0.8 + ph) * 0.005) ;;
  u <- random ;;
  let localGround := groundLevel + u * accumulationHeight in
  py <- load (i6 + 1) ;;
  if leb py localGround then
    px <- load i6 ;;
    pz <- load (i6 + 2) ;;
    let distSq := px * px + pz * pz in
    if ltb distSq (accumulationRadius * accumulationRadius) then
      store (i6 + 1) localGround ;;
      store (i6 + 5) 1
    else resetParticle i false
  else ret tt.

(** TREE MODE, a landed particle: it melts with probability 0.001. *)
Definition melt (i : nat) : St Sim unit :=
  u <- random ;;
  if ltb u 0.001 then resetParticle i false else ret tt.

(** The divisor of the EXPLODED MODE push. *)
Definition len (x y z : R) : R := sqrt (x * x + y * y + z * z) + 0.01.

(** EXPLODED MODE: push away from the centre, turbulence, state reset. *)
Definition scatter (delta : R) (i : nat) : St Sim unit :=
  let i6 := (i * 6)%nat in
  x <- load i6 ;;
  y <- load (i6 + 1) ;;
  z <- load (i6 + 2) ;;
  let speed := 15 * delta in
  add_to i6 ((x / len x y z) * speed) ;;
  add_to (i6 + 1) ((y / len x y z) * speed) ;;
  add_to (i6 + 2) ((z / len x y z) * speed) ;;
  u <- random ;;
  add_to i6 ((u - 0.5) * 0.2) ;;
  u <- random ;;
  add_to (i6 + 1) ((u - 0.5) * 0.2) ;;
  u <- random ;;
  add_to (i6 + 2) ((u - 0.5) * 0.2) ;;
  store (i6 + 5) 0.

(** The body of the loop of [useFrame] for particle [i]. *)
Definition step (mode : InteractionState) (time delta : R) (i : nat)
  : St Sim unit :=
  let i6 := (i * 6)%nat in
  if InteractionState_eqb mode Tree then
    st <- load (i6 + 5) ;;
    if eqb st 0 then fall time delta i else melt i
  else scatter delta i.

(** [useFrame((state, delta) => ...)] over [n] particles; [time] is
    [state.clock.elapsedTime] and [mounted] is [meshRef.current] being set. *)
Definition useFrame (mounted : bool) (n : nat) (mode : InteractionState)
    (time delta : R) : St Sim unit :=
  if negb mounted then ret tt
  else for_loop n (step mode time delta).

(** Readings of particle [i]. *)
Definition px (s : Sim) (i : nat) : R := get (particles s) (i * 6).
Definition py (s : Sim) (i : nat) : R := get (particles s) (i * 6 + 1).
Definition pz (s : Sim) (i : nat) : R := get (particles s) (i * 6 + 2).
Definition velocityY (s : Sim) (i : nat) : R := get (particles s) (i * 6 + 3).
Definition wobblePhase (s : Sim) (i : nat) : R := get (particles s) (i * 6 + 4).
Definition state (s : Sim) (i : nat) : R := get (particles s) (i * 6 + 5).

(** The particle is falling: its state slot passes the test [=== 0]. *)
Definition falling (s : Sim) (i : nat) : bool := eqb (state s i) 0.

(** How many of the first [n] particles are landed. *)
Fixpoint landed (s : Sim) (n : nat) : nat :=
  match n with
  | O => O
  | S k => ((if falling s k then 0 else 1) + landed s k)%nat
  end.

(** The buffer holds [n] particles. *)
Definition sized (n : nat) (s : Sim) : Prop := length (particles s) = (n * 6)%nat.

(** The invariant of the simulation: [n] particles, and a random source
    that draws from [0, 1). *)
Definition inv (n : nat) (s : Sim) : Prop := sized n s /\ unit_interval (rng s).

(** The computation keeps the invariant. *)
Definition keeps {A : Type} (n : nat) (m : St Sim A) : Prop :=
  forall s, inv n s -> inv n (exec m s).

(** Distance from the vertical axis through the scene centre. *)
Definition horizontalDistance (x z : R) : R := sqrt (x * x + z * z).

(** The computation writes no slot outside those of particle [i]. *)
Definition only_touches {A : Type} (i : nat) (m : St Sim A) : Prop :=
  forall s k, (k < i * 6 \/ i * 6 + 6 <= k)%nat ->
    get (particles (exec m s)) k = get (particles s) k.

(** Particle [j] has the same six slots in both buffers. *)
Definition same_particle (j : nat) (s s' : Sim) : Prop :=
  forall k, (k < 6)%nat ->
    get (particles s') (j * 6 + k) = get (particles s) (j * 6 + k).

(** Particle [i] is falling, or it is landed (state [1]) at a height in
    [-5, -4.8) and closer than 4.5 to the vertical axis. *)
Definition settled (s : Sim) (i : nat) : Prop :=
  state s i = 0 \/
  (state s i = 1 /\
   groundLevel <= py s i < groundLevel + accumulationHeight /\
   horizontalDistance (px s i) (pz s i) < accumulationRadius).

(** What happens to the component between two renders: a frame, or the run
    of the mode effect. *)
Inductive Tick : Type :=
| FrameTick (mounted : bool) (mode : InteractionState) (time delta : R)
| EffectTick (prevMode mode : InteractionState).

Definition tick (n : nat) (t : Tick) : St Sim unit :=
  match t with
  | FrameTick mounted mode time delta => useFrame mounted n mode time delta
  | EffectTick prevMode mode => _ <- modeEffect n prevMode mode ;; ret tt
  end.

(** The buffer after a history of ticks, first one first. *)
Definition play (n : nat) (history : list Tick) (s : Sim) : Sim :=
  fold_left (fun s t => exec (tick n t) s) history s.

End SnowSystem.

(** ** three.js *)

(** [THREE.MathUtils.lerp(x, y, t)], which three.js defines as
    [(1 - t) * x + t * y]. *)
Definition MathUtils_lerp (x y t : R) : R := (1 - t) * x + t * y.

(** ** Experience.tsx *)

Module Experience.

(** The target speed [useFrame] picks from the manual rotation command and
    the mode. *)
Definition targetSpeed (rotationSpeed : R) (mode : InteractionState) : R :=
  if gtb (Rabs rotationSpeed) 0.01 then rotationSpeed * 8.0
  else if InteractionState_eqb mode Tree then 1.0 else 0.2.

(** [useFrame((state, delta) => ...)] on [controlsRef.current.autoRotateSpeed];
    [None] is [controlsRef.current] not being set. *)
Definition useFrame (autoRotateSpeed : option R) (rotationSpeed : R)
    (mode : InteractionState) (delta : R) : option R :=
  match autoRotateSpeed with
  | Some speed =>
      let currentSpeed := if eqb speed 0 then 0 else speed in
      Some (MathUtils_lerp currentSpeed (targetSpeed rotationSpeed mode)
                           (delta * 6.0))
  | None => None
  end.

(** [autoRotateSpeed] after [n] frames of [delta] seconds each, with the
    rotation command and the mode held fixed. *)
Fixpoint frames (rotationSpeed : R) (mode : InteractionState) (delta : R)
    (n : nat) (speed : option R) : option R :=
  match n with
  | O => speed
  | S k => useFrame (frames rotationSpeed mode delta k speed)
                    rotationSpeed mode delta
  end.

End Experience.

(** ** TreeTopper.tsx *)

Module TreeTopper.

(** What [useFrame] writes: the two tilts and the height of the star, and
    the intensity of its light. *)
Record Star : Type := mkStar {
  rotation_z : R;
  rotation_x : R;
  position_y : R;
  intensity : R
}.

(** The star as it is mounted: [position={[0, 5.6, 0]}]. *)
Definition mounted_at (tilt_z tilt_x light : R) : Star :=
  mkStar tilt_z tilt_x 5.6 light.

(** [useFrame((state) => ...)]; [mounted] is [ref.current && lightRef.current]
    and [time] is [state.clock.elapsedTime]. *)
Definition useFrame (mounted : bool) (mode : InteractionState) (time : R)
    (star : Star) : Star :=
  if mounted then
    let hover := sin (time * 2) * 0.15 in
    let targetY := if InteractionState_eqb mode Exploded then 20 else 5.6 + hover in
    mkStar (sin (time * 2) * 0.1)
           (cos (time * 1.5) * 0.05)
           (MathUtils_lerp (position_y star) targetY 0.05)
           (4.0 + sin (time * 3) * 1.5)
  else star.

(** The star after mounted frames at the given elapsed times, the mode held
    fixed. *)
Definition frames (mode : InteractionState) (times : list R) (star : Star) : Star :=
  fold_left (fun st time => useFrame true mode time st) times star.

(** A path of a [THREE.Shape]: the commands in the order they are issued. *)
Inductive Command : Type :=
| moveTo (x y : R)
| quadraticCurveTo (cpx cpy x y : R).

(** The point a command ends on. *)
Definition end_point (c : Command) : R * R :=
  match c with
  | moveTo x y => (x, y)
  | quadraticCurveTo _ _ x y => (x, y)
  end.

(** The control point of a curve. *)
Definition control_point (c : Command) : option (R * R) :=
  match c with
  | moveTo _ _ => None
  | quadraticCurveTo cpx cpy _ _ => Some (cpx, cpy)
  end.

Definition points : nat := 5.
Definition outerRadius : R := 0.65.
Definition innerRadius : R := 0.35.

Definition getPos (angle radius : R) : R * R :=
  (cos angle * radius, sin angle * radius).

Definition startAngle : R := PI / 2.
Definition angleStep : R := (PI * 2) / INR points.

(** The two curves of arm [i]: tip to valley, valley to next tip. *)
Definition arm (i : nat) : list Command :=
  let currentTipAngle := startAngle + INR i * angleStep in
  let nextTipAngle := startAngle + (INR i + 1) * angleStep in
  let valleyAngle := currentTipAngle + angleStep / 2 in
  let v := getPos valleyAngle innerRadius in
  let nt := getPos nextTipAngle outerRadius in
  let cpRadius := (outerRadius + innerRadius) / 2 * 0.95 in
  let cp1Angle := currentTipAngle + angleStep * 0.2 in
  let c1 := getPos cp1Angle cpRadius in
  let cp2Angle := valleyAngle + angleStep * 0.3 in
  let c2 := getPos cp2Angle cpRadius in
  [quadraticCurveTo (fst c1) (snd c1) (fst v) (snd v);
   quadraticCurveTo (fst c2) (snd c2) (fst nt) (snd nt)].

(** The [starShape] memo: the store of the loop is the path so far. *)
Definition starShape : list Command :=
  let s := getPos startAngle outerRadius in
  exec (for_loop points (fun i path => (tt, path ++ arm i)))
       [moveTo (fst s) (snd s)].

(** Distance of a point of the plane from the centre of the shape. *)
Definition norm (p : R * R) : R := sqrt (fst p * fst p + snd p * snd p).

End TreeTopper.

(** ** FloatingGifts.tsx *)

Module FloatingGifts.

(** *** DynamicRibbon *)

Inductive RibbonVariant : Set := tail | loop.

Definition segments : nat := 32.

(** The spine position [(px, py, pz)] the loop body computes for segment
    [i].  The first two assignments of the loop branch are overwritten before
    they are read, as in the source. *)
Definition spine (variant : RibbonVariant) (offset speed length width time : R)
    (i : nat) : R * R * R :=
  let t := INR i / INR segments in
  match variant with
  | loop =>
      let angle := t * PI * 2 in
      let r := length / 3.2 in
      let px := sin angle * r * 1.5 in
      let pz := (1 - cos angle) * r * 0.8 in
      let petalAngle := t * PI * 2 in
      let px := sin petalAngle * r * 1.2 in
      let pz := (cos petalAngle - 1) * r * 0.5 in
      let py := sin (t * PI) * (width * 1.5) in
      let breathe := 1 + sin (time * speed + offset) * 0.05 in
      (px * breathe, py * breathe, pz * breathe)
  | tail =>
      let px := t * length * 0.5 in
      let py := - t ^ 2 * length in
      let pz := sin (t * PI) * width * 0.2 in
      let flutter := sin (time * speed * 2 + t * 5 + offset) * 0.05 * t in
      (px + flutter, py, pz + flutter)
  end.

(** The writes of the loop body for segment [i]: the left and the right
    vertex of the strip. *)
Definition write_segment (variant : RibbonVariant)
    (offset speed length width time : R) (i : nat) : St (list R) unit :=
  fun array =>
    let halfWidth := width / 2 in
    let p := spine variant offset speed length width time i in
    let vLeft := (i * 2 * 3)%nat in
    let vRight := ((i * 2 + 1) * 3)%nat in
    let wx := 0 in
    let wy := 0 in
    let wz := halfWidth in
    (tt,
     set (set (set (set (set (set array
       vLeft (fst (fst p) - wx))
       (vLeft + 1) (snd (fst p) - wy))
       (vLeft + 2) (snd p - wz))
       vRight (fst (fst p) + wx))
       (vRight + 1) (snd (fst p) + wy))
       (vRight + 2) (snd p + wz)).

(** [useFrame((state) => ...)] of [DynamicRibbon], on the position array of
    the mesh; the loop runs for [i = 0 .. segments]. *)
Definition DynamicRibbon_useFrame (mounted : bool) (variant : RibbonVariant)
    (offset speed length width time : R) : St (list R) unit :=
  if negb mounted then ret tt
  else for_loop (S segments) (write_segment variant offset speed length width time).

(** The position array of [PlaneGeometry(width, length, 1, segments)] has
    two vertices a row and [segments + 1] rows. *)
Definition vertex_floats : nat := 2 * (segments + 1) * 3.

(** The left and the right vertex of row [i] in a position array. *)
Definition left_vertex (array : list R) (i : nat) : R * R * R :=
  (get array (i * 2 * 3), get array (i * 2 * 3 + 1), get array (i * 2 * 3 + 2)).
Definition right_vertex (array : list R) (i : nat) : R * R * R :=
  (get array ((i * 2 + 1) * 3), get array ((i * 2 + 1) * 3 + 1),
   get array ((i * 2 + 1) * 3 + 2)).

(** *** GiftBox *)

(** [group.current]: position and rotation. *)
Record Group : Type := mkGroup {
  position : R * R * R;
  rotation : R * R * R
}.

(** The [explodeTarget] memo, [u] being its draw. *)
Definition explodeTarget (pos : R * R * R) (u : R) : R * R * R :=
  let '(x, y, z) := pos in
  (x * 1.5 + 0, y * 1.5 + u * 5, z * 1.5 + 0).

(** [Vector3.lerp(v, alpha)], which three.js defines coordinate by
    coordinate as [this.x += (v.x - this.x) * alpha]. *)
Definition Vector3_lerp (p v : R * R * R) (alpha : R) : R * R * R :=
  (fst (fst p) + (fst (fst v) - fst (fst p)) * alpha,
   snd (fst p) + (snd (fst v) - snd (fst p)) * alpha,
   snd p + (snd v - snd p) * alpha).

(** [useFrame((state) => ...)] of [GiftBox]; [pos] and [rot] are the props
    [position] and [rotation]. *)
Definition GiftBox_useFrame (mounted : bool) (pos rot target : R * R * R)
    (mode : InteractionState) (index : nat) (time : R) (group : Group) : Group :=
  if negb mounted then group
  else
    let floatY := sin (time * 1.0 + INR index) * 0.15 in
    let basePos := pos in
    let target := if InteractionState_eqb mode Exploded then target else basePos in
    let currentTarget := (fst (fst target), snd (fst target) + floatY, snd target) in
    let r := rotation group in
    mkGroup
      (Vector3_lerp (position group) currentTarget 0.05)
      (MathUtils_lerp (fst (fst r))
         (fst (fst rot) + sin (time * 0.3 + INR index) * 0.05) 0.05,
       snd (fst r) + 0.005,
       MathUtils_lerp (snd r) (snd rot + cos (time * 0.3 + INR index) * 0.05) 0.05).

(** The point a gift chases in a mode, the float apart: [target] of the
    frame. *)
Definition chased (pos target : R * R * R) (mode : InteractionState) : R * R * R :=
  if InteractionState_eqb mode Exploded then target else pos.

(** The group after mounted frames at the given elapsed times. *)
Definition GiftBox_frames (pos rot target : R * R * R) (mode : InteractionState)
    (index : nat) (times : list R) (group : Group) : Group :=
  fold_left (fun g time => GiftBox_useFrame true pos rot target mode index time g)
            times group.

(** *** FloatingGifts *)

Definition REDS : list string := ["#D40000"; "#B22222"; "#8B0000"]%string.
Definition GREENS : list string := ["#006400"; "#228B22"; "#004d00"]%string.

Definition count : nat := 10.
Definition minDistance : R := 3.5.

(** [Math.random()] on a random source alone. *)
Definition draw : St Rng R := fun g => (g 0%nat, fun n => g (S n)).

(** [Math.floor] of a number that is not negative, as an index. *)
Definition floor (x : R) : nat := Z.to_nat (Int_part x).

(** The balanced colours: [count / 2] reds, then [count / 2] greens. *)
Definition balanced : list string :=
  let reds :=
    exec (for_loop (count / 2) (fun i pool =>
            (tt, pool ++ [nth (i mod length REDS) REDS ""%string]))) [] in
  exec (for_loop (count / 2) (fun i pool =>
          (tt, pool ++ [nth (i mod length GREENS) GREENS ""%string]))) reds.

(** [[a[i], a[j]] = [a[j], a[i]]]. *)
Definition swap {A : Type} (d : A) (a : list A) (i j : nat) : list A :=
  let ai := nth i a d in
  let aj := nth j a d in
  <[j := ai]> (<[i := aj]> a).

(** The shuffle: [for (let i = ...; i > 0; i--)], from index [i] down. *)
Fixpoint shuffle_from {A : Type} (d : A) (i : nat) (pool : list A)
  : St Rng (list A) :=
  match i with
  | O => ret pool
  | S k =>
      u <- draw ;;
      let j := floor (u * (INR i + 1)) in
      shuffle_from d k (swap d pool i j)
  end.

Definition shuffle {A : Type} (d : A) (pool : list A) : St Rng (list A) :=
  shuffle_from d (length pool - 1) pool.

Record Gift : Type := mkGift {
  gift_position : R * R * R;
  gift_rotation : R * R * R;
  color : string;
  size : R;
  index : nat
}.

(** [Vector3.distanceTo]. *)
Definition distanceTo (p q : R * R * R) : R :=
  let dx := fst (fst p) - fst (fst q) in
  let dy := snd (fst p) - snd (fst q) in
  let dz := snd p - snd q in
  sqrt (dx * dx + dy * dy + dz * dz).

(** The loop over the items placed so far: [false] as soon as one is closer
    than [minDistance]. *)
Fixpoint clear_of (pos : R * R * R) (items : list Gift) : bool :=
  match items with
  | [] => true
  | item :: rest =>
      if ltb (distanceTo pos (gift_position item)) minDistance then false
      else clear_of pos rest
  end.

(** [while (!valid && attempt < 50)], with [remaining = 50 - attempt]. *)
Fixpoint attempts (remaining : nat) (items : list Gift)
    (valid : bool) (pos : R * R * R) (sz : R)
  : St Rng (bool * (R * R * R) * R) :=
  match remaining with
  | O => ret (valid, pos, sz)
  | S k =>
      if valid then ret (valid, pos, sz)
      else
        u <- draw ;;
        let angle := u * PI * 2 in
        u <- draw ;;
        let r := 7 + u * 8 in
        u <- draw ;;
        let y := (u - 0.5) * 8 in
        let pos := (cos angle * r, y, sin angle * r) in
        u <- draw ;;
        let sz := 1.0 + u * 0.8 in
        attempts k items (clear_of pos items) pos sz
  end.

(** [for (let i = 0; i < 100 && items.length < count; i++)], with
    [remaining = 100 - i]. *)
Fixpoint place (remaining : nat) (colorPool : list string) (items : list Gift)
  : St Rng (list Gift) :=
  match remaining with
  | O => ret items
  | S k =>
      if (length items <? count)%nat then
        r <- attempts 50 items false (0, 0, 0) 1.0 ;;
        if fst (fst r) then
          u1 <- draw ;;
          u2 <- draw ;;
          u3 <- draw ;;
          place k colorPool
            (items ++
             [mkGift (snd (fst r)) (u1 * 0.2, u2 * PI, u3 * 0.2)
                     (nth (length items mod length colorPool) colorPool ""%string)
                     (snd r) (length items)])
        else place k colorPool items
      else ret items
  end.

(** No two of the items are closer than [minDistance]: each one is clear of
    those before it. *)
Definition spaced (items : list Gift) : Prop :=
  forall i j a b, (i < j)%nat -> items !! i = Some a -> items !! j = Some b ->
    minDistance <= distanceTo (gift_position b) (gift_position a).

(** What the placement loop gives a gift: a place in the ring between the
    radii 7 and 15 about the vertical axis, given with a margin of 0.01 for
    the rounding of the two coordinates, at a height in [-4, 4), and a size
    between 1 and 1.8. *)
Definition in_ring (pos : R * R * R) (sz : R) : Prop :=
  6.99 <= sqrt (fst (fst pos) * fst (fst pos) + snd pos * snd pos) <= 15.01 /\
  -4 <= snd (fst pos) < 4 /\
  1 <= sz <= 1.8.

(** What the placement loop keeps true of the items. *)
Definition placed (pool : list string) (items : list Gift) : Prop :=
  (length items <= count)%nat /\
  spaced items /\
  (forall i a, items !! i = Some a ->
     index a = i /\ color a ∈ pool /\ in_ring (gift_position a) (size a)).

(** The [gifts] memo. *)
Definition gifts : St Rng (list Gift) :=
  colorPool <- shuffle ""%string balanced ;;
  place 100 colorPool [].

End FloatingGifts.

(** * Properties *)

(** ** Comparisons *)

Lemma ltb_true a b : ltb a b = true <-> a < b.
Proof. unfold ltb; destruct (Rlt_dec a b); split; intros; try lra; congruence. Qed.

Lemma ltb_false a b : ltb a b = false <-> b <= a.
Proof. unfold ltb; destruct (Rlt_dec a b); split; intros; try lra; congruence. Qed.

Lemma gtb_true a b : gtb a b = true <-> a > b.
Proof. unfold gtb; rewrite ltb_true; lra. Qed.

Lemma gtb_false a b : gtb a b = false <-> a <= b.
Proof. unfold gtb; rewrite ltb_false; lra. Qed.

Lemma leb_true a b : leb a b = true <-> a <= b.
Proof. unfold leb; destruct (Rle_dec a b); split; intros; try lra; congruence. Qed.

Lemma leb_false a b : leb a b = false <-> b < a.
Proof. unfold leb; destruct (Rle_dec a b); split; intros; try lra; congruence. Qed.

Lemma eqb_true a b : eqb a b = true <-> a = b.
Proof. unfold eqb; destruct (Req_dec_T a b); split; intros; try lra; congruence. Qed.

Lemma eqb_false a b : eqb a b = false <-> a <> b.
Proof. unfold eqb; destruct (Req_dec_T a b); split; intros; try lra; congruence. Qed.

(** Decide every comparison of the goal whose operands are known. *)
Ltac cmp :=
  repeat match goal with
  | |- context [ltb ?a ?b] =>
      first [ replace (ltb a b) with true by (symmetry; apply ltb_true; lra)
            | replace (ltb a b) with false by (symmetry; apply ltb_false; lra) ]
  | |- context [gtb ?a ?b] =>
      first [ replace (gtb a b) with true by (symmetry; apply gtb_true; lra)
            | replace (gtb a b) with false by (symmetry; apply gtb_false; lra) ]
  | |- context [leb ?a ?b] =>
      first [ replace (leb a b) with true by (symmetry; apply leb_true; lra)
            | replace (leb a b) with false by (symmetry; apply leb_false; lra) ]
  | |- context [eqb ?a ?b] =>
      first [ replace (eqb a b) with true by (symmetry; apply eqb_true; lra)
            | replace (eqb a b) with false by (symmetry; apply eqb_false; lra) ]
  end; cbn [negb andb orb].

(** ** The gesture mapper *)

Module HandTrackerFacts.
Import HandTracker.

(** The three outcomes of the hysteresis block. *)
Lemma hysteresis_cases (isOpen : bool) (r : R) :
  (isOpen = false /\ r > 1.35 /\ hysteresis isOpen r = (true, Some true)) \/
  (isOpen = true /\ r < 1.25 /\ hysteresis isOpen r = (false, Some false)) \/
  ((if isOpen then 1.25 <= r else r <= 1.35) /\ hysteresis isOpen r = (isOpen, None)).
Proof.
  unfold hysteresis. destruct isOpen; cbn [negb andb].
  - destruct (ltb r 1.25) eqn:E.
    + apply ltb_true in E. right; left; auto.
    + apply ltb_false in E. right; right; auto.
  - destruct (gtb r 1.35) eqn:E.
    + apply gtb_true in E. left; auto.
    + apply gtb_false in E. right; right; auto.
Qed.

Lemma hysteresis_open_quiet (rs : list R) :
  Forall (fun r => 1.25 <= r) rs -> hysteresis_events true rs = [].
Proof.
  induction 1 as [|r rs Hr _ IH]; [reflexivity|].
  cbn [hysteresis_events].
  destruct (hysteresis_cases true r) as [(E & _)|[(_ & Hlt & _)|(_ & ->)]];
    [discriminate | lra | exact IH].
Qed.

Lemma hysteresis_closed_quiet (rs : list R) :
  Forall (fun r => r <= 1.35) rs -> hysteresis_events false rs = [].
Proof.
  induction 1 as [|r rs Hr _ IH]; [reflexivity|].
  cbn [hysteresis_events].
  destruct (hysteresis_cases false r) as [(_ & Hgt & _)|[(E & _)|(_ & ->)]];
    [lra | discriminate | exact IH].
Qed.

Lemma increasing_head (r : R) (rs : list R) :
  increasing (r :: rs) -> Forall (fun x => r <= x) rs /\ increasing rs.
Proof.
  revert r. induction rs as [|a rs IH]; intros r H.
  - split; constructor.
  - destruct H as [Hra Hinc]. split; [|exact Hinc].
    constructor; [exact Hra|].
    destruct (IH a Hinc) as [Hall _].
    eapply Forall_impl; [exact Hall|]. cbn. intros; lra.
Qed.

Lemma hysteresis_one_open (rs : list R) :
  increasing rs -> Exists (fun r => r > 1.35) rs ->
  hysteresis_events false rs = [true].
Proof.
  induction rs as [|r rs IH]; intros Hinc Hex.
  - inversion Hex.
  - destruct (increasing_head r rs Hinc) as [Hall Hinc'].
    cbn [hysteresis_events].
    destruct (hysteresis_cases false r) as [(_ & Hgt & ->)|[(E & _)|(Hle & ->)]].
    + cbn [fst snd]. f_equal. apply hysteresis_open_quiet.
      eapply Forall_impl; [exact Hall|]. cbn. intros; lra.
    + discriminate.
    + cbn [fst snd]. apply IH; [exact Hinc'|].
      inversion Hex; subst; [lra | assumption].
Qed.

(** A run of [predictWebcam] fires the callback as the hysteresis block does
    on the smoothed ratios. *)
Lemma gesture_events_trace (st : Refs) (fs : list Frame) :
  gesture_events st fs = hysteresis_events (isOpenState st) (smoothed_trace st fs).
Proof.
  revert st. induction fs as [|f fs IH]; intros st; [reflexivity|].
  destruct f as [[|landmarks hands]|].
  - cbn [gesture_events smoothed_trace predictWebcam fst snd]. apply IH.
  - cbn [gesture_events smoothed_trace predictWebcam onHand fst snd
         smoothedRatio hysteresis_events].
    rewrite !IH. cbn [isOpenState]. reflexivity.
  - cbn [gesture_events smoothed_trace predictWebcam fst snd]. apply IH.
Qed.

Lemma dist_horizontal (a b y : R) :
  b <= a -> dist (mkLandmark a y) (mkLandmark b y) = a - b.
Proof.
  intros Hab. unfold dist. cbn [lx ly].
  replace ((a - b) ^ 2 + (y - y) ^ 2) with (Rsqr (a - b)) by (unfold Rsqr; ring).
  apply sqrt_Rsqr. lra.
Qed.

(** The raw ratio of the example hand is its parameter. *)
Lemma rawRatio_hand (r : R) : 0 <= r -> rawRatio (hand r) = r.
Proof.
  intros Hr. unfold rawRatio, sums, hand, exec.
  cbn [for_loop bind ret fst snd landmark nth tips mcps].
  rewrite !dist_horizontal by lra.
  replace (0 + (0.6 - 0.5) + (0.6 - 0.5) + (0.6 - 0.5) + (0.6 - 0.5))
    with 0.4 by lra.
  lra.
Qed.

Lemma smoothed_hand (st : Refs) (r : R) :
  0 <= r ->
  smoothedRatio (fst (predictWebcam st (Some [hand r]))) =
  smooth (smoothedRatio st) r.
Proof.
  intros Hr. cbn [predictWebcam onHand fst smoothedRatio].
  now rewrite rawRatio_hand.
Qed.

(** The events of a run: they alternate, and the first one, if any, is the
    opposite of the state the run starts in. *)
Lemma hysteresis_events_flip (rs : list R) (isOpen : bool) :
  alternating (hysteresis_events isOpen rs) /\
  match hysteresis_events isOpen rs with
  | [] => True
  | e :: _ => e = negb isOpen
  end.
Proof.
  revert isOpen. induction rs as [|r rs IH]; intros isOpen; [cbn; auto|].
  cbn [hysteresis_events].
  destruct (hysteresis_cases isOpen r) as [(-> & _ & ->)|[(-> & _ & ->)|(_ & ->)]];
    cbn [fst snd].
  - destruct (IH true) as [Halt Hhd].
    split; [|reflexivity].
    destruct (hysteresis_events true rs) as [|e tl]; [exact I|].
    cbn in Hhd. subst e. split; [discriminate | exact Halt].
  - destruct (IH false) as [Halt Hhd].
    split; [|reflexivity].
    destruct (hysteresis_events false rs) as [|e tl]; [exact I|].
    cbn in Hhd. subst e. split; [discriminate | exact Halt].
  - apply IH.
Qed.

(** C3.  Started Closed, a run whose smoothed ratios never decrease and
    somewhere exceed 1.35 fires [onGestureChange] exactly once, with [true]
    (Open); a run whose smoothed ratios all stay in [1.25, 1.35] fires
    nothing.  In general the hysteresis block fires Open exactly when it is
    Closed and the ratio exceeds 1.35, Close exactly when it is Open and the
    ratio is below 1.25, and nothing exactly when the state stays as it is. *)
Theorem hysteresis_open_close (st : Refs) (frames : list Frame) :
  (isOpenState st = false ->
   increasing (smoothed_trace st frames) ->
   Exists (fun r => r > 1.35) (smoothed_trace st frames) ->
   gesture_events st frames = [true]) /\
  (isOpenState st = false ->
   Forall (fun r => 1.25 <= r <= 1.35) (smoothed_trace st frames) ->
   gesture_events st frames = []) /\
  (forall (isOpen : bool) (r : R),
     (snd (hysteresis isOpen r) = Some true <-> isOpen = false /\ r > 1.35) /\
     (snd (hysteresis isOpen r) = Some false <-> isOpen = true /\ r < 1.25) /\
     (snd (hysteresis isOpen r) = None <-> fst (hysteresis isOpen r) = isOpen)).
Proof.
  rewrite gesture_events_trace. split; [|split].
  - intros -> Hinc Hex. now apply hysteresis_one_open.
  - intros -> Hall. apply hysteresis_closed_quiet.
    eapply Forall_impl; [exact Hall|]. cbn. intros; lra.
  - intros isOpen r.
    destruct (hysteresis_cases isOpen r) as [(-> & Hr & ->)|[(-> & Hr & ->)|(Hr & ->)]];
      cbn [fst snd];
      intuition (subst; cbn in *; try discriminate; try lra; auto).
Qed.

Lemma smoothed_trace_hand (st : Refs) (r : R) (fs : list Frame) :
  0 <= r ->
  smoothed_trace st (Some [hand r] :: fs) =
  smooth (smoothedRatio st) r ::
  smoothed_trace (fst (predictWebcam st (Some [hand r]))) fs.
Proof.
  intros Hr. cbn [smoothed_trace predictWebcam onHand fst snd smoothedRatio].
  now rewrite rawRatio_hand.
Qed.

(** Two runs from the initial refs, with the example hand: raw ratio 2 twice
    (smoothed 1.4, 1.55) opens once; raw ratios 1.5, 1.3 (smoothed 1.275,
    1.28125) stay silent. *)
Lemma hysteresis_open_close_witness :
  gesture_events init [Some [hand 2]; Some [hand 2]] = [true] /\
  gesture_events init [Some [hand 1.5]; Some [hand 1.3]] = [].
Proof.
  split.
  - refine (proj1 (hysteresis_open_close init [Some [hand 2]; Some [hand 2]]) _ _ _).
    + reflexivity.
    + rewrite !smoothed_trace_hand, !smoothed_hand by lra.
      unfold smooth, alpha, init. cbn [smoothedRatio increasing].
      split; [lra | exact I].
    + rewrite !smoothed_trace_hand, !smoothed_hand by lra.
      unfold smooth, alpha, init. cbn [smoothedRatio].
      apply Exists_cons_hd. lra.
  - refine (proj1 (proj2 (hysteresis_open_close init
              [Some [hand 1.5]; Some [hand 1.3]])) _ _).
    + reflexivity.
    + rewrite !smoothed_trace_hand, !smoothed_hand by lra.
      unfold smooth, alpha, init. cbn [smoothedRatio].
      repeat constructor; lra.
Defined.

(** C10.  Over any run of [predictWebcam], from any refs, the successive
    arguments of [onGestureChange] alternate: no two consecutive calls carry
    the same value. *)
Theorem gesture_events_alternate (st : Refs) (frames : list Frame) :
  alternating (gesture_events st frames).
Proof.
  rewrite gesture_events_trace. apply hysteresis_events_flip.
Qed.

End HandTrackerFacts.

(** ** The rotation command *)

Module AppFacts.
Import App.

(** C4.  [handleHandMove] commands 0 on the dead zone [0.45, 0.55],
    [(x - 0.55) * 6] to the right of it and [-((0.45 - x) * 6)] to the left
    of it; so 0 at 0.5, 1.5 at 0.8 and -1.5 at 0.2. *)
Theorem handleHandMove_dead_zone (x : R) :
  (0.45 <= x <= 0.55 -> handleHandMove x = 0) /\
  (x > 0.55 -> handleHandMove x = (x - 0.55) * 6.0) /\
  (x < 0.45 -> handleHandMove x = - ((0.45 - x) * 6.0)) /\
  handleHandMove 0.5 = 0 /\
  handleHandMove 0.8 = 1.5 /\
  handleHandMove 0.2 = - 1.5.
Proof.
  unfold handleHandMove, CENTER, DEADZONE, SENSITIVITY.
  repeat split; intros; cmp; lra.
Qed.

Lemma handleHandMove_dead_zone_witness :
  handleHandMove 0.5 = 0 /\
  handleHandMove 0.8 = (0.8 - 0.55) * 6.0 /\
  handleHandMove 0.2 = - ((0.45 - 0.2) * 6.0).
Proof.
  split; [|split].
  - apply (proj1 (handleHandMove_dead_zone 0.5)). lra.
  - apply (proj1 (proj2 (handleHandMove_dead_zone 0.8))). lra.
  - apply (proj1 (proj2 (proj2 (handleHandMove_dead_zone 0.2)))). lra.
Defined.

End AppFacts.

(** ** The scenarios in binary64 *)

Module Binary64Facts.
Import Floats.
#[local] Set Warnings "-inexact-float".

(** The rotation commands at 0.5, 0.8 and 0.2 are exact in binary64, the two
    ends of the dead zone are the doubles nearest to 0.45 and 0.55, and the
    command is 0 at both ends. *)
Example handleHandMove_scenarios :
  Binary64.handleHandMove 0.5 = 0%float /\
  Binary64.handleHandMove 0.8 = 1.5%float /\
  Binary64.handleHandMove 0.2 = (-1.5)%float /\
  PrimFloat.sub 0.5 0.05 = 0.45%float /\
  PrimFloat.add 0.5 0.05 = 0.55%float /\
  Binary64.handleHandMove 0.45 = 0%float /\
  Binary64.handleHandMove 0.55 = 0%float.
Proof. repeat split; vm_compute; reflexivity. Qed.

(** Where binary64 leaves the exact values: the commands of two mirrored
    hands differ by a rounding error, a hand mirrored from the end of the
    dead zone is just outside it, and between 0.72 and 0.89 the command
    changes by a rounding error more than 6 times the distance. *)
Example handleHandMove_rounding :
  Binary64.handleHandMove (1 - 0.3) = 0.8999999999999995%float /\
  Binary64.handleHandMove 0.3 = (-0.9000000000000001)%float /\
  Binary64.handleHandMove (1 - 0.55) = (-3.3306690738754696e-16)%float /\
  (Binary64.handleHandMove 0.89 - Binary64.handleHandMove 0.72)%float =
    1.0200000000000005%float /\
  (6 * (0.89 - 0.72))%float = 1.0200000000000002%float.
Proof. repeat split; vm_compute; reflexivity. Qed.

(** Runs from [smoothedRatio = 1.2] and Closed: raw ratio 2 twice opens
    once, raw ratios 1.5 and 1.3 fire nothing; and a hand that opens and
    closes twice fires Open, Close, Open, Close. *)
Example hysteresis_scenarios :
  Binary64.events (1.2%float, false) [2%float; 2%float] = [true] /\
  Binary64.events (1.2%float, false) [1.5%float; 1.3%float] = [] /\
  Binary64.events (1.2%float, false)
    [2; 2; 1; 1; 1; 2; 2; 1; 1; 1]%float = [true; false; true; false].
Proof. repeat split; vm_compute; reflexivity. Qed.

(** What the typed array keeps of some constants of the scene: 45 and -5 as
    they are, 0.01 and -4.8 moved to the nearest binary32 value.  So a reset
    particle whose draw is 0.99999999 is stored at height 45, and one whose
    draw is 0 is stored with a fall speed just below 0.01. *)
Example fround_scenarios :
  Binary64.fround 45 = 45%float /\
  Binary64.fround (-5) = (-5)%float /\
  Binary64.fround 0.01 = 0.009999999776482582%float /\
  Binary64.fround (-4.8) = (-4.800000190734863)%float /\
  Binary64.fround (30 + 0.99999999 * 15) = 45%float /\
  Binary64.fround (0.01 + 0 * 0.03) = 0.009999999776482582%float.
Proof. repeat split; vm_compute; reflexivity. Qed.

(** The star one frame after the mode turns to Exploded, from its mount
    height 5.6: a rounding error below 6.32. *)
Example lerp_scenarios :
  Binary64.MathUtils_lerp 5.6 20 0.05 = 6.319999999999999%float.
Proof. vm_compute; reflexivity. Qed.

(** At 60 frames a second a coordinate that starts at 0 and is drawn towards
    1 stops at 0.9999995827674866: frame 212 writes what frame 211 wrote, and
    so does every later frame.  The step still to go, about 2.8e-8, is less
    than half the gap between neighbouring binary32 values there. *)
Example interpolation_stalls :
  Binary64.frames 211 1 (1 / 60) 0 = 0.9999995827674866%float /\
  Binary64.move 0.9999995827674866 1 (4 * (1 / 60)) = 0.9999995827674866%float /\
  Binary64.frames 1000 1 (1 / 60) 0 = 0.9999995827674866%float /\
  (0.9999995827674866 <? 1)%float = true.
Proof. repeat split; vm_compute; reflexivity. Qed.

(** A frame of 1/2 s takes the coordinate from 0 past the target 1 to 2, and
    a frame of 1/4 s from -1 towards a target next to 0 lands beyond it. *)
Example interpolation_unclamped :
  Binary64.move 0 1 (4 * 0.5) = 2%float /\
  Binary64.move (-1) 1.2246467996456087e-15 (4 * 0.25) =
    1.3322676295501878e-15%float.
Proof. repeat split; vm_compute; reflexivity. Qed.

End Binary64Facts.

(** ** Buffers and loops *)

Section Buffers.

Implicit Types (buf : list R) (i j : nat) (v : R).

Lemma length_set buf i v : length (set buf i v) = length buf.
Proof. apply length_insert. Qed.

Lemma get_set_eq buf i v : (i < length buf)%nat -> get (set buf i v) i = v.
Proof.
  intros Hi. unfold get, set. rewrite nth_lookup.
  now rewrite list_lookup_insert_eq.
Qed.

Lemma get_set_ne buf i j v : i <> j -> get (set buf i v) j = get buf j.
Proof.
  intros Hij. unfold get, set. rewrite !nth_lookup.
  now rewrite list_lookup_insert_ne.
Qed.

Lemma length_Float32Array (n : nat) : length (Float32Array n) = n.
Proof. apply length_replicate. Qed.

Lemma get_Float32Array (n i : nat) : get (Float32Array n) i = 0.
Proof.
  unfold get, Float32Array. rewrite nth_lookup.
  destruct (replicate n 0 !! i) as [x|] eqn:E; [|reflexivity].
  apply lookup_replicate in E. now destruct E.
Qed.

End Buffers.

Lemma exec_for_loop_S {S : Type} (n : nat) (body : nat -> St S unit) (s : S) :
  exec (for_loop (Datatypes.S n) body) s = exec (body n) (exec (for_loop n body) s).
Proof.
  unfold exec. cbn [for_loop]. unfold bind.
  now destruct (for_loop n body s).
Qed.

Lemma exec_for_loop_0 {S : Type} (body : nat -> St S unit) (s : S) :
  exec (for_loop 0 body) s = s.
Proof. reflexivity. Qed.

Lemma exec_bind {S A B : Type} (m : St S A) (k : A -> St S B) (s : S) :
  exec (bind m k) s = exec (k (fst (m s))) (exec m s).
Proof. unfold exec, bind. now destruct (m s). Qed.

(** ** The interpolation engine *)

Module InstancedShapeFacts.
Import InstancedShape.

Lemma length_move (tgt : list R) (lam : R) (i : nat) (cur : list R) :
  length (exec (move tgt lam i) cur) = length cur.
Proof. unfold exec, move. cbn [snd]. now rewrite !length_set. Qed.

Lemma length_move_loop (tgt : list R) (lam : R) (n : nat) (cur : list R) :
  length (exec (for_loop n (move tgt lam)) cur) = length cur.
Proof.
  induction n as [|n IH]; [reflexivity|].
  now rewrite exec_for_loop_S, length_move.
Qed.

(** The loop over the first [n] instances interpolates every slot below
    [n * 3] once and leaves the other slots alone. *)
Lemma get_move_loop (tgt : list R) (lam : R) (n : nat) (cur : list R) (j : nat) :
  (n * 3 <= length cur)%nat ->
  get (exec (for_loop n (move tgt lam)) cur) j =
  if (j <? n * 3)%nat then lerp (get cur j) (get tgt j) lam else get cur j.
Proof.
  revert j. induction n as [|n IH]; intros j Hlen; [reflexivity|].
  rewrite exec_for_loop_S.
  pose proof (length_move_loop tgt lam n cur) as Hl.
  set (c := exec (for_loop n (move tgt lam)) cur) in *.
  assert (Hold : forall k, (n * 3 <= k)%nat -> get c k = get cur k).
  { intros k Hk. subst c. rewrite IH by lia.
    destruct (Nat.ltb_spec k (n * 3)); [lia | reflexivity]. }
  unfold exec, move. cbn [snd].
  destruct (Nat.eq_dec j (n * 3 + 2)) as [->|N2].
  { rewrite get_set_eq by (rewrite !length_set; lia).
    rewrite Hold by lia.
    destruct (Nat.ltb_spec (n * 3 + 2) (Datatypes.S n * 3)); [reflexivity | lia]. }
  rewrite get_set_ne by congruence.
  destruct (Nat.eq_dec j (n * 3 + 1)) as [->|N1].
  { rewrite get_set_eq by (rewrite !length_set; lia).
    rewrite Hold by lia.
    destruct (Nat.ltb_spec (n * 3 + 1) (Datatypes.S n * 3)); [reflexivity | lia]. }
  rewrite get_set_ne by congruence.
  destruct (Nat.eq_dec j (n * 3)) as [->|N0].
  { rewrite get_set_eq by lia.
    rewrite Hold by lia.
    destruct (Nat.ltb_spec (n * 3) (Datatypes.S n * 3)); [reflexivity | lia]. }
  rewrite get_set_ne by congruence.
  subst c. rewrite IH by lia.
  destruct (Nat.ltb_spec j (n * 3)), (Nat.ltb_spec j (Datatypes.S n * 3));
    try reflexivity; lia.
Qed.

(** One frame, slot by slot. *)
Lemma get_useFrame (count : nat) (t : Gen) (mode : InteractionState)
    (delta : R) (cur : list R) (j : nat) :
  length cur = (count * 3)%nat -> (j < count * 3)%nat ->
  get (exec (useFrame true count t mode delta) cur) j =
  lerp (get cur j) (get (targetArray t mode) j) (4 * delta).
Proof.
  intros Hlen Hj. unfold useFrame. cbn [negb].
  rewrite get_move_loop by lia.
  destruct (Nat.ltb_spec j (count * 3)); [reflexivity | lia].
Qed.

Lemma length_useFrame (mounted : bool) (count : nat) (t : Gen)
    (mode : InteractionState) (delta : R) (cur : list R) :
  length (exec (useFrame mounted count t mode delta) cur) = length cur.
Proof.
  unfold useFrame. destruct mounted; cbn [negb]; [|reflexivity].
  apply length_move_loop.
Qed.


Lemma Rmin_1_small (x : R) : x <= 1 -> Rmin 1 x = x.
Proof. intros Hx. unfold Rmin. destruct (Rle_dec 1 x); lra. Qed.

(** C2, as the code has it.  With the mesh mounted, one frame replaces the
    current position of every instance [i] by
    [current + (target - current) * (4 * delta)], slot by slot, where the
    target buffer is [tree] in Tree mode and [explode] in Exploded mode.  The
    factor [4 * delta] is not clamped; the update is the clamped one,
    [min(1, 4 * delta)], whenever [4 * delta <= 1]. *)
Theorem useFrame_interpolates (count : nat) (t : Gen) (mode : InteractionState)
    (delta : R) (cur : list R) (i : nat) :
  length cur = (count * 3)%nat -> (i < count)%nat ->
  (forall k, (k < 3)%nat ->
     get (exec (useFrame true count t mode delta) cur) (i * 3 + k) =
     get cur (i * 3 + k) +
     (get (targetArray t mode) (i * 3 + k) - get cur (i * 3 + k)) * (4 * delta)) /\
  (4 * delta <= 1 ->
   forall k, (k < 3)%nat ->
     get (exec (useFrame true count t mode delta) cur) (i * 3 + k) =
     spec_update (get cur (i * 3 + k)) (get (targetArray t mode) (i * 3 + k)) delta) /\
  targetArray t Tree = tree t /\
  targetArray t Exploded = explode t.
Proof.
  intros Hlen Hi. repeat split.
  - intros k Hk. now rewrite get_useFrame by lia.
  - intros Hd k Hk. rewrite get_useFrame by lia.
    unfold spec_update, lerp. now rewrite Rmin_1_small.
Qed.

(** One instance at the origin, tree target (1, 2, 3), a frame of 0.1 s. *)
Lemma useFrame_interpolates_witness :
  get (exec (useFrame true 1 (mkGen [1; 2; 3] [0; 0; 0] (fun _ => 0)) Tree 0.1)
            [0; 0; 0]) (0 * 3 + 1) =
  spec_update (get [0; 0; 0] (0 * 3 + 1))
              (get (targetArray (mkGen [1; 2; 3] [0; 0; 0] (fun _ => 0)) Tree)
                   (0 * 3 + 1)) 0.1.
Proof.
  apply (proj1 (proj2 (useFrame_interpolates 1
           (mkGen [1; 2; 3] [0; 0; 0] (fun _ => 0)) Tree 0.1 [0; 0; 0] 0%nat
           eq_refl (Nat.lt_0_succ 0)))).
  - lra.
  - lia.
Defined.

(** The clamped update is not what a long frame does: with [delta = 1/2] the
    factor is 2, so an instance at 0 with target 1 lands on 2, where the
    clamped update would put it on 1. *)
Lemma useFrame_unclamped :
  get (exec (useFrame true 1 (mkGen [1; 1; 1] [0; 0; 0] (fun _ => 0)) Tree (1 / 2))
            [0; 0; 0]) 0 = 2 /\
  spec_update 0 1 (1 / 2) = 1 /\
  get (exec (useFrame true 1 (mkGen [1; 1; 1] [0; 0; 0] (fun _ => 0)) Tree (1 / 2))
            [0; 0; 0]) 0 <>
  spec_update (get [0; 0; 0] 0)
              (get (targetArray (mkGen [1; 1; 1] [0; 0; 0] (fun _ => 0)) Tree) 0)
              (1 / 2).
Proof.
  assert (E1 : get (exec (useFrame true 1 (mkGen [1; 1; 1] [0; 0; 0] (fun _ => 0))
                            Tree (1 / 2)) [0; 0; 0]) 0 = 2).
  { rewrite get_useFrame by (cbn; lia).
    unfold lerp, targetArray, get. cbn. lra. }
  assert (E2 : spec_update 0 1 (1 / 2) = 1).
  { unfold spec_update, Rmin. destruct (Rle_dec 1 (4 * (1 / 2))); lra. }
  repeat split; [exact E1 | exact E2 |].
  rewrite E1. unfold targetArray, get. cbn. rewrite E2. lra.
Qed.

(** *** The distance to the target *)












(** *** Placement *)

(** One iteration of the placement loop, written out. *)
Lemma exec_place (count i : nat) (s : Gen) :
  exec (place count i) s =
  mkGen
    (set (set (set (tree s)
       (i * 3) (radius count i * cos (theta i) + (rng s 0%nat - 0.5) * jitter))
       (i * 3 + 1) (y count i))
       (i * 3 + 2) (radius count i * sin (theta i) + (rng s 1%nat - 0.5) * jitter))
    (set (set (set (explode s)
       (i * 3) ((15 + rng s 2%nat * 10) *
                cos (sqrt (INR count * PI) * acos (-1 + 2 * INR i / INR count)) *
                sin (acos (-1 + 2 * INR i / INR count))))
       (i * 3 + 1) ((15 + rng s 2%nat * 10) *
                    sin (sqrt (INR count * PI) * acos (-1 + 2 * INR i / INR count)) *
                    sin (acos (-1 + 2 * INR i / INR count))))
       (i * 3 + 2) ((15 + rng s 2%nat * 10) * cos (acos (-1 + 2 * INR i / INR count))))
    (fun n => rng s (5 + n)%nat).
Proof. reflexivity. Qed.

(** What the first [n] iterations leave: the buffers keep their lengths, five
    draws are spent per instance, the slots of the instances below [n] hold
    the jittered cone, and the later slots are untouched. *)
Lemma place_loop (count n : nat) (s0 : Gen) :
  (n * 3 <= length (tree s0))%nat ->
  length (tree (exec (for_loop n (place count)) s0)) = length (tree s0) /\
  length (explode (exec (for_loop n (place count)) s0)) = length (explode s0) /\
  (forall k, rng (exec (for_loop n (place count)) s0) k = rng s0 (5 * n + k)%nat) /\
  (forall j, (n * 3 <= j)%nat ->
     get (tree (exec (for_loop n (place count)) s0)) j = get (tree s0) j) /\
  (forall i, (i < n)%nat ->
     get (tree (exec (for_loop n (place count)) s0)) (i * 3) =
       radius count i * cos (theta i) + (rng s0 (5 * i)%nat - 0.5) * jitter /\
     get (tree (exec (for_loop n (place count)) s0)) (i * 3 + 1) = y count i /\
     get (tree (exec (for_loop n (place count)) s0)) (i * 3 + 2) =
       radius count i * sin (theta i) + (rng s0 (5 * i + 1)%nat - 0.5) * jitter).
Proof.
  induction n as [|n IH]; intros Hlen.
  - rewrite exec_for_loop_0. repeat split; try reflexivity; intros; lia.
  - destruct IH as (Ht & He & Hr & Hkeep & Hset); [lia|].
    rewrite exec_for_loop_S, exec_place.
    set (s := exec (for_loop n (place count)) s0) in *.
    cbn [tree explode rng].
    split; [now rewrite !length_set|].
    split; [now rewrite !length_set|].
    split; [intros k; rewrite Hr; f_equal; lia|].
    split.
    + intros j Hj. rewrite !get_set_ne by lia. apply Hkeep. lia.
    + intros i Hi. destruct (Nat.eq_dec i n) as [->|Hne].
      * rewrite !Hr. replace (5 * n + 0)%nat with (5 * n)%nat by lia.
        repeat split.
        -- rewrite !get_set_ne by lia. now rewrite get_set_eq by lia.
        -- rewrite get_set_ne by lia.
           now rewrite get_set_eq by (rewrite !length_set; lia).
        -- now rewrite get_set_eq by (rewrite !length_set; lia).
      * rewrite !get_set_ne by lia. apply Hset. lia.
Qed.

Lemma jitter_bound (u : R) : 0 <= u < 1 -> Rabs ((u - 0.5) * jitter) <= 0.15.
Proof. intros Hu. unfold jitter. apply Rabs_le. lra. Qed.

(** C7.  For every [count] both target buffers hold [count * 3] floats, that
    is [count] positions; for [count = 0] both are empty and no draw is
    spent, as the loop runs no iteration; and every iteration that runs
    divides by a [count] that is not 0. *)
Theorem targets_sizes (count : nat) (g : Rng) :
  length (tree (targets count g)) = (count * 3)%nat /\
  length (explode (targets count g)) = (count * 3)%nat /\
  targets 0 g = mkGen [] [] g /\
  (forall i, (i < count)%nat -> INR count <> 0).
Proof.
  unfold targets.
  destruct (place_loop count count
              (mkGen (Float32Array (count * 3)) (Float32Array (count * 3)) g))
    as (Ht & He & _).
  { cbn [tree]. now rewrite length_Float32Array. }
  cbn [tree explode] in Ht, He. rewrite length_Float32Array in Ht, He.
  repeat split; try assumption.
  intros i Hi. apply not_0_INR. lia.
Qed.

(** Three instances, every draw 0.5. *)
Lemma targets_sizes_witness :
  length (tree (targets 3 (fun _ => 0.5))) = 9%nat /\
  length (explode (targets 3 (fun _ => 0.5))) = 9%nat /\
  INR 3 <> 0.
Proof.
  destruct (targets_sizes 3 (fun _ => 0.5)) as (Ht & He & _ & Hdiv).
  split; [exact Ht|]. split; [exact He|].
  apply (Hdiv 0%nat). lia.
Defined.

(** C8.  Along the instances the height never decreases and the cone radius
    never increases; and every tree position is the cone point of its
    instance moved by at most 0.3 on the x and z axes and not at all on the
    y axis. *)
Theorem tree_radius_monotone (count : nat) (g : Rng) (i j : nat) :
  (i < j)%nat -> (j < count)%nat -> unit_interval g ->
  y count i <= y count j /\
  radius count j <= radius count i /\
  (forall k, (k < count)%nat ->
     Rabs (get (tree (targets count g)) (k * 3) - radius count k * cos (theta k)) <= 0.3 /\
     get (tree (targets count g)) (k * 3 + 1) = y count k /\
     Rabs (get (tree (targets count g)) (k * 3 + 2) - radius count k * sin (theta k)) <= 0.3).
Proof.
  intros Hij Hj Hg.
  assert (Hc : 0 < INR count) by (apply lt_0_INR; lia).
  assert (Hle : INR i / INR count <= INR j / INR count).
  { apply Rmult_le_compat_r; [left; now apply Rinv_0_lt_compat|].
    apply le_INR. lia. }
  split; [unfold y; lra|].
  split; [unfold radius, level, y; lra|].
  intros k Hk. unfold targets.
  destruct (place_loop count count
              (mkGen (Float32Array (count * 3)) (Float32Array (count * 3)) g))
    as (_ & _ & _ & _ & Hset).
  { cbn [tree]. now rewrite length_Float32Array. }
  destruct (Hset k Hk) as (Hx & Hy & Hz). cbn [rng] in Hx, Hz.
  rewrite Hx, Hy, Hz. repeat split.
  - replace (radius count k * cos (theta k) + (g (5 * k)%nat - 0.5) * jitter -
             radius count k * cos (theta k))
      with ((g (5 * k)%nat - 0.5) * jitter) by ring.
    pose proof (jitter_bound (g (5 * k)%nat) (Hg _)). lra.
  - replace (radius count k * sin (theta k) + (g (5 * k + 1)%nat - 0.5) * jitter -
             radius count k * sin (theta k))
      with ((g (5 * k + 1)%nat - 0.5) * jitter) by ring.
    pose proof (jitter_bound (g (5 * k + 1)%nat) (Hg _)). lra.
Qed.

(** Three instances, every draw 0.25: instance 0 is below instance 2 and has
    the larger radius. *)
Lemma tree_radius_monotone_witness :
  y 3 0 <= y 3 2 /\ radius 3 2 <= radius 3 0.
Proof.
  pose proof (tree_radius_monotone 3 (fun _ => 0.25) 0 2) as H.
  destruct H as (Hy & Hr & _).
  - lia.
  - lia.
  - intros n. lra.
  - split; assumption.
Defined.

End InstancedShapeFacts.

(** ** The snow *)

Module SnowSystemFacts.
Import SnowSystem.

(** Reads of a buffer under writes, decided by the slot numbers. *)
Ltac slots :=
  repeat first
    [ rewrite get_set_ne by lia
    | rewrite get_set_eq by (rewrite ?length_set; lia) ].

(** [resetParticle], written out: five draws, six writes. *)
Lemma exec_resetParticle (i : nat) (fullRandomY : bool) (s : Sim) :
  exec (resetParticle i fullRandomY) s =
  mkSim
    (set (set (set (set (set (set (particles s)
       (i * 6) (sqrt (rng s 0%nat) * 45.0 * cos (rng s 1%nat * PI * 2)))
       (i * 6 + 1) (if fullRandomY then rng s 2%nat * 40 + 5
                    else 30 + rng s 2%nat * 15))
       (i * 6 + 2) (sqrt (rng s 0%nat) * 45.0 * sin (rng s 1%nat * PI * 2)))
       (i * 6 + 3) (0.01 + rng s 3%nat * 0.03))
       (i * 6 + 4) (rng s 4%nat * PI * 2))
       (i * 6 + 5) 0)
    (fun n => rng s (5 + n)%nat).
Proof. reflexivity. Qed.

(** What the first [n] resets at the top leave. *)
Lemma reset_loop (n : nat) (s0 : Sim) :
  (n * 6 <= length (particles s0))%nat ->
  length (particles (exec (for_loop n (fun i => resetParticle i false)) s0)) =
    length (particles s0) /\
  (forall k, rng (exec (for_loop n (fun i => resetParticle i false)) s0) k =
             rng s0 (5 * n + k)%nat) /\
  (forall j, (n * 6 <= j)%nat ->
     get (particles (exec (for_loop n (fun i => resetParticle i false)) s0)) j =
     get (particles s0) j) /\
  (forall i, (i < n)%nat ->
     px (exec (for_loop n (fun i => resetParticle i false)) s0) i =
       sqrt (rng s0 (5 * i)%nat) * 45.0 * cos (rng s0 (5 * i + 1)%nat * PI * 2) /\
     py (exec (for_loop n (fun i => resetParticle i false)) s0) i =
       30 + rng s0 (5 * i + 2)%nat * 15 /\
     pz (exec (for_loop n (fun i => resetParticle i false)) s0) i =
       sqrt (rng s0 (5 * i)%nat) * 45.0 * sin (rng s0 (5 * i + 1)%nat * PI * 2) /\
     state (exec (for_loop n (fun i => resetParticle i false)) s0) i = 0).
Proof.
  induction n as [|n IH]; intros Hlen.
  - rewrite exec_for_loop_0. repeat split; try reflexivity; intros; lia.
  - destruct IH as (Hl & Hr & Hkeep & Hset); [lia|].
    rewrite exec_for_loop_S, exec_resetParticle.
    set (s := exec (for_loop n (fun i => resetParticle i false)) s0) in *.
    unfold px, py, pz, state in *. cbn [particles rng].
    split; [now rewrite !length_set|].
    split; [intros k; rewrite Hr; f_equal; lia|].
    split.
    + intros j Hj. slots. apply Hkeep. lia.
    + intros i Hi. destruct (Nat.eq_dec i n) as [->|Hne].
      * rewrite !Hr.
        replace (5 * n + 0)%nat with (5 * n)%nat by lia.
        repeat split; slots; reflexivity.
      * slots. apply Hset. lia.
Qed.

Lemma landed_zero (s : Sim) (n : nat) :
  (forall i, (i < n)%nat -> state s i = 0) -> landed s n = 0%nat.
Proof.
  induction n as [|n IH]; intros H; [reflexivity|].
  cbn [landed]. unfold falling. rewrite H by lia.
  replace (eqb 0 0) with true by (symmetry; now apply eqb_true).
  rewrite IH; [reflexivity|]. intros i Hi. apply H. lia.
Qed.

(** *** The invariant *)

Lemma keeps_ret {A : Type} (n : nat) (a : A) : keeps n (ret a).
Proof. intros s H. exact H. Qed.

Lemma keeps_bind {A B : Type} (n : nat) (m : St Sim A) (k : A -> St Sim B) :
  keeps n m -> (forall a, keeps n (k a)) -> keeps n (bind m k).
Proof.
  intros Hm Hk s H. rewrite exec_bind. apply Hk, Hm, H.
Qed.

Lemma keeps_random (n : nat) : keeps n random.
Proof.
  intros s [Hs Hg]. split; [exact Hs|]. intros k. apply Hg.
Qed.

Lemma keeps_load (n i : nat) : keeps n (load i).
Proof. intros s H. exact H. Qed.

Lemma keeps_store (n i : nat) (v : R) : keeps n (store i v).
Proof.
  intros s [Hs Hg]. split; [|exact Hg].
  unfold sized, exec, store in *. cbn [snd particles]. now rewrite length_set.
Qed.

Lemma keeps_for_loop (n k : nat) (body : nat -> St Sim unit) :
  (forall i, keeps n (body i)) -> keeps n (for_loop k body).
Proof.
  intros Hb. induction k as [|k IH]; intros s H.
  - exact H.
  - rewrite exec_for_loop_S. apply Hb, IH, H.
Qed.

Create HintDb snow.
#[local] Hint Resolve keeps_ret keeps_random keeps_load keeps_store : snow.

(** Walk down a computation, one operation at a time. *)
Ltac keep :=
  repeat first
    [ progress auto with snow
    | apply keeps_bind; [|intros ?]
    | apply keeps_for_loop; intros ?
    | match goal with
      | |- keeps _ (if ?c then _ else _) => destruct c
      end ].

Lemma keeps_add_to (n i : nat) (v : R) : keeps n (add_to i v).
Proof. unfold add_to. keep. Qed.
#[local] Hint Resolve keeps_add_to : snow.

Lemma keeps_resetParticle (n i : nat) (b : bool) : keeps n (resetParticle i b).
Proof. unfold resetParticle. keep. Qed.
#[local] Hint Resolve keeps_resetParticle : snow.

Lemma keeps_fall (n : nat) (time delta : R) (i : nat) : keeps n (fall time delta i).
Proof. unfold fall. keep. Qed.

Lemma keeps_melt (n i : nat) : keeps n (melt i).
Proof. unfold melt. keep. Qed.

Lemma keeps_scatter (n : nat) (delta : R) (i : nat) : keeps n (scatter delta i).
Proof. unfold scatter. keep. Qed.
#[local] Hint Resolve keeps_fall keeps_melt keeps_scatter : snow.

Lemma keeps_step (n : nat) (mode : InteractionState) (time delta : R) (i : nat) :
  keeps n (step mode time delta i).
Proof. unfold step. keep. Qed.
#[local] Hint Resolve keeps_step : snow.

Lemma keeps_useFrame (mounted : bool) (n : nat) (mode : InteractionState)
    (time delta : R) : keeps n (useFrame mounted n mode time delta).
Proof. unfold useFrame. keep. Qed.

Lemma keeps_modeEffect (n : nat) (prevMode mode : InteractionState) :
  keeps n (modeEffect n prevMode mode).
Proof. unfold modeEffect. keep. Qed.

Lemma inv_init (n : nat) (g : Rng) : unit_interval g -> inv n (init n g).
Proof.
  intros Hg. unfold init.
  apply (keeps_for_loop n n); [intros i; apply keeps_resetParticle|].
  split; [|exact Hg]. unfold sized. cbn [particles]. apply length_Float32Array.
Qed.

(** *** Return to Tree mode *)

Lemma exec_modeEffect_reset (n : nat) (s : Sim) :
  exec (modeEffect n Exploded Tree) s =
  exec (for_loop n (fun i => resetParticle i false)) s.
Proof.
  unfold modeEffect. cbn [InteractionState_eqb andb].
  rewrite exec_bind. reflexivity.
Qed.

Lemma modeEffect_resets (n : nat) (s : Sim) :
  inv n s ->
  forall i, (i < n)%nat ->
    state (exec (modeEffect n Exploded Tree) s) i = 0 /\
    30 <= py (exec (modeEffect n Exploded Tree) s) i < 45.
Proof.
  intros [Hs Hg] i Hi. rewrite exec_modeEffect_reset.
  destruct (reset_loop n s) as (_ & _ & _ & Hset); [unfold sized in Hs; lia|].
  destruct (Hset i Hi) as (_ & Hy & _ & Hst).
  rewrite Hy, Hst. pose proof (Hg (5 * i + 2)%nat). split; [reflexivity | lra].
Qed.

(** C6.  The mode effect run for the change from Exploded to Tree resets
    every particle: each of the [n] particles is then falling, at a height
    in [30, 45), and none is landed.  So it is after the toggle Tree,
    Exploded, Tree (the effect run for the change to Exploded, a frame, the
    effect run for the change back with the [prevMode] the first run left),
    whatever the particles were before. *)
Theorem modeEffect_clears_snow (n : nat) (s : Sim) :
  sized n s -> unit_interval (rng s) ->
  fst (modeEffect n Exploded Tree s) = Tree /\
  sized n (exec (modeEffect n Exploded Tree) s) /\
  (forall i, (i < n)%nat ->
     falling (exec (modeEffect n Exploded Tree) s) i = true /\
     30 <= py (exec (modeEffect n Exploded Tree) s) i < 45) /\
  landed (exec (modeEffect n Exploded Tree) s) n = 0%nat /\
  (forall (mounted : bool) (time delta : R),
     landed (exec (modeEffect n (fst (modeEffect n Tree Exploded s)) Tree)
               (exec (useFrame mounted n Exploded time delta)
                  (exec (modeEffect n Tree Exploded) s))) n = 0%nat).
Proof.
  intros Hs Hg. assert (Hinv : inv n s) by (split; assumption).
  split; [|split; [|split; [|split]]].
  - unfold modeEffect, bind. cbn [InteractionState_eqb andb].
    now destruct (for_loop n (fun i => resetParticle i false) s).
  - now apply keeps_modeEffect.
  - intros i Hi. destruct (modeEffect_resets n s Hinv i Hi) as [Hst Hy].
    split; [|exact Hy]. unfold falling. rewrite Hst. now apply eqb_true.
  - apply landed_zero. intros i Hi. now apply modeEffect_resets.
  - intros mounted time delta.
    replace (fst (modeEffect n Tree Exploded s)) with Exploded by reflexivity.
    apply landed_zero. intros i Hi.
    apply modeEffect_resets; [|exact Hi].
    now apply keeps_useFrame, keeps_modeEffect.
Qed.

(** Two landed particles on the ground, every draw 0.5: after the effect both
    are falling again.  And so are the 6000 particles of the component,
    started from its initial buffer. *)
Lemma modeEffect_clears_snow_witness :
  landed (exec (modeEffect 2 Exploded Tree)
            (mkSim [1; -5; 1; 0.02; 0; 1; 2; -5; 2; 0.02; 0; 1] (fun _ => 0.5)))
         2 = 0%nat /\
  landed (exec (modeEffect count Exploded Tree) (init count (fun _ => 0.5)))
         count = 0%nat.
Proof.
  split.
  - refine (proj1 (proj2 (proj2 (proj2 (modeEffect_clears_snow 2
             (mkSim [1; -5; 1; 0.02; 0; 1; 2; -5; 2; 0.02; 0; 1] (fun _ => 0.5))
             _ _))))).
    + reflexivity.
    + intros k. cbn [rng]. lra.
  - refine (proj1 (proj2 (proj2 (proj2 (modeEffect_clears_snow count
             (init count (fun _ => 0.5)) _ _))))).
    + apply inv_init. intros k. lra.
    + apply inv_init. intros k. lra.
Defined.

(** *** Ground contact *)

Lemma within_radius (x z r : R) :
  0 < r -> (horizontalDistance x z < r <-> x * x + z * z < r * r).
Proof.
  intros Hr. unfold horizontalDistance.
  assert (Ha : 0 <= x * x + z * z).
  { pose proof (Rle_0_sqr x). pose proof (Rle_0_sqr z). unfold Rsqr in *. lra. }
  pose proof (sqrt_pos (x * x + z * z)) as Hs.
  pose proof (sqrt_sqrt _ Ha) as Hss.
  split; intros H; nra.
Qed.

(** The body of the loop for a falling particle in Tree mode, written out:
    the particle is moved, one draw is spent on the local ground, and then it
    stays, lands or is reset. *)
Lemma exec_step_falling (s : Sim) (time delta : R) (i : nat) :
  (i * 6 + 5 < length (particles s))%nat ->
  falling s i = true ->
  exec (step Tree time delta i) s =
  (if leb (py s i - velocityY s i * (delta * 60))
          (groundLevel + rng s 0%nat * accumulationHeight)
   then
     if ltb ((px s i + sin (time + wobblePhase s i) * 0.005) *
             (px s i + sin (time + wobblePhase s i) * 0.005) +
             (pz s i + cos (time * 0.8 + wobblePhase s i) * 0.005) *
             (pz s i + cos (time * 0.8 + wobblePhase s i) * 0.005))
            (accumulationRadius * accumulationRadius)
     then
       fun s1 =>
         mkSim (set (set (particles s1) (i * 6 + 1)
                       (groundLevel + rng s 0%nat * accumulationHeight))
                  (i * 6 + 5) 1)
               (rng s1)
     else exec (resetParticle i false)
   else fun s1 => s1)
    (mkSim
       (set (set (set (particles s)
          (i * 6 + 1) (py s i - velocityY s i * (delta * 60)))
          (i * 6) (px s i + sin (time + wobblePhase s i) * 0.005))
          (i * 6 + 2) (pz s i + cos (time * 0.8 + wobblePhase s i) * 0.005))
       (fun n => rng s (S n))).
Proof.
  intros Hlen Hf. unfold step. cbn [InteractionState_eqb].
  rewrite exec_bind. unfold falling, state in Hf.
  unfold load at 1 2. unfold exec in *. cbn [fst snd] in *. rewrite Hf.
  unfold fall, add_to, bind, load, store, random. cbn [fst snd particles rng].
  slots. unfold px, py, pz, velocityY, wobblePhase.
  change (get (particles s) (i * 6 + 1) +
          - (get (particles s) (i * 6 + 3) * (delta * 60)))
    with (get (particles s) (i * 6 + 1) -
          get (particles s) (i * 6 + 3) * (delta * 60)).
  destruct (leb _ _); [|reflexivity].
  cbn [particles]. slots.
  destruct (ltb _ _); reflexivity.
Qed.

(** C5.  In Tree mode, take a falling particle whose height, after this
    frame's fall, is at or below its local ground [-5 + u * 0.2] ([u] the
    draw of this frame).  If its distance from the vertical axis, after this
    frame's wobble, is less than the accumulation radius 4.5, it is landed
    at the height of the local ground, where the wobble left it; otherwise
    (distance 4.5 or more) it is reset: falling, at a height [30 + u' * 15]
    and at a horizontal position made of two further draws. *)
Theorem fall_lands_or_recycles (s : Sim) (time delta : R) (i : nat) :
  (i * 6 + 5 < length (particles s))%nat ->
  falling s i = true ->
  py s i - velocityY s i * (delta * 60) <=
    groundLevel + rng s 0%nat * accumulationHeight ->
  (horizontalDistance (px s i + sin (time + wobblePhase s i) * 0.005)
                      (pz s i + cos (time * 0.8 + wobblePhase s i) * 0.005)
     < accumulationRadius ->
   falling (exec (step Tree time delta i) s) i = false /\
   state (exec (step Tree time delta i) s) i = 1 /\
   py (exec (step Tree time delta i) s) i =
     groundLevel + rng s 0%nat * accumulationHeight /\
   px (exec (step Tree time delta i) s) i =
     px s i + sin (time + wobblePhase s i) * 0.005 /\
   pz (exec (step Tree time delta i) s) i =
     pz s i + cos (time * 0.8 + wobblePhase s i) * 0.005) /\
  (accumulationRadius <=
     horizontalDistance (px s i + sin (time + wobblePhase s i) * 0.005)
                        (pz s i + cos (time * 0.8 + wobblePhase s i) * 0.005) ->
   falling (exec (step Tree time delta i) s) i = true /\
   py (exec (step Tree time delta i) s) i = 30 + rng s 3%nat * 15 /\
   px (exec (step Tree time delta i) s) i =
     sqrt (rng s 1%nat) * 45.0 * cos (rng s 2%nat * PI * 2) /\
   pz (exec (step Tree time delta i) s) i =
     sqrt (rng s 1%nat) * 45.0 * sin (rng s 2%nat * PI * 2) /\
   (unit_interval (rng s) -> 30 <= py (exec (step Tree time delta i) s) i < 45)).
Proof.
  intros Hlen Hf Hy.
  rewrite (exec_step_falling s time delta i Hlen Hf).
  replace (leb _ _) with true by (symmetry; now apply leb_true).
  assert (HR : 0 < accumulationRadius) by (unfold accumulationRadius; lra).
  split; intros Hd.
  - apply (within_radius _ _ _ HR) in Hd.
    replace (ltb _ _) with true by (symmetry; now apply ltb_true).
    unfold falling, state, px, py, pz. cbn [particles]. slots.
    repeat split; try reflexivity. apply eqb_false. lra.
  - assert (Hd' : accumulationRadius * accumulationRadius <=
                  (px s i + sin (time + wobblePhase s i) * 0.005) *
                  (px s i + sin (time + wobblePhase s i) * 0.005) +
                  (pz s i + cos (time * 0.8 + wobblePhase s i) * 0.005) *
                  (pz s i + cos (time * 0.8 + wobblePhase s i) * 0.005)).
    { apply Rnot_lt_le. intros Hlt.
      apply (within_radius _ _ _ HR) in Hlt. lra. }
    replace (ltb _ _) with false by (symmetry; now apply ltb_false).
    rewrite exec_resetParticle.
    unfold falling, state, px, py, pz. cbn [particles rng]. slots.
    split; [now apply eqb_true|].
    repeat (split; [reflexivity|]).
    intros Hg. pose proof (Hg 3%nat). lra.
Qed.

(** A falling particle just above the ground, every draw 0.5, a frame of
    1/60 s at time 0: on the axis it lands, ten units away it is reset. *)
Lemma fall_lands_or_recycles_witness :
  state (exec (step Tree 0 (1 / 60) 0)
           (mkSim [0; -4.99; 0; 0.02; 0; 0] (fun _ => 0.5))) 0 = 1 /\
  falling (exec (step Tree 0 (1 / 60) 0)
             (mkSim [10; -4.99; 0; 0.02; 0; 0] (fun _ => 0.5))) 0 = true.
Proof.
  split.
  - refine (proj1 (proj2 (proj1 (fall_lands_or_recycles
              (mkSim [0; -4.99; 0; 0.02; 0; 0] (fun _ => 0.5)) 0 (1 / 60) 0
              _ _ _) _))).
    + cbn. lia.
    + apply eqb_true. reflexivity.
    + unfold py, velocityY, get, groundLevel, accumulationHeight. cbn. lra.
    + apply within_radius; [unfold accumulationRadius; lra|].
      unfold px, pz, wobblePhase, get, accumulationRadius. cbn.
      pose proof (SIN_bound (0 + 0)). pose proof (COS_bound (0 * 0.8 + 0)). nra.
  - refine (proj1 (proj2 (fall_lands_or_recycles
              (mkSim [10; -4.99; 0; 0.02; 0; 0] (fun _ => 0.5)) 0 (1 / 60) 0
              _ _ _) _)).
    + cbn. lia.
    + apply eqb_true. reflexivity.
    + unfold py, velocityY, get, groundLevel, accumulationHeight. cbn. lra.
    + apply Rnot_lt_le. intros Hlt.
      apply within_radius in Hlt; [|unfold accumulationRadius; lra].
      unfold px, pz, wobblePhase, get, accumulationRadius in Hlt. cbn in Hlt.
      pose proof (SIN_bound (0 + 0)). pose proof (COS_bound (0 * 0.8 + 0)). nra.
Defined.

(** *** Scatter *)

Lemma len_positive (x y z : R) : 0.01 <= len x y z.
Proof. unfold len. pose proof (sqrt_pos (x * x + y * y + z * z)). lra. Qed.

Lemma len_origin : len 0 0 0 = 0.01.
Proof.
  unfold len. replace (0 * 0 + 0 * 0 + 0 * 0) with 0 by ring.
  rewrite sqrt_0. lra.
Qed.

(** The body of the loop in Exploded mode, by what it leaves in the slots of
    its particle: each coordinate pushed along the direction from the origin
    and shaken by a draw of its own, the state slot cleared. *)
Lemma scatter_readings (s : Sim) (delta : R) (i : nat) :
  (i * 6 + 5 < length (particles s))%nat ->
  px (exec (scatter delta i) s) i =
    px s i + px s i / len (px s i) (py s i) (pz s i) * (15 * delta) +
    (rng s 0%nat - 0.5) * 0.2 /\
  py (exec (scatter delta i) s) i =
    py s i + py s i / len (px s i) (py s i) (pz s i) * (15 * delta) +
    (rng s 1%nat - 0.5) * 0.2 /\
  pz (exec (scatter delta i) s) i =
    pz s i + pz s i / len (px s i) (py s i) (pz s i) * (15 * delta) +
    (rng s 2%nat - 0.5) * 0.2 /\
  state (exec (scatter delta i) s) i = 0.
Proof.
  intros Hlen.
  unfold px, py, pz, state.
  cbv [scatter add_to bind load store random exec fst snd].
  cbn [particles rng]. slots.
  repeat split; reflexivity.
Qed.

(** C9.  The divisor of the push is the length of the position plus 0.01, so
    it is at least 0.01 and never 0, wherever the particle is; the push is
    then the position divided by it, times [15 * delta].  For a particle at
    the origin the divisor is 0.01, the push is 0, and the particle moves by
    its turbulence alone. *)
Theorem scatter_never_divides_by_zero (s : Sim) (delta : R) (i : nat) :
  (i * 6 + 5 < length (particles s))%nat ->
  0.01 <= len (px s i) (py s i) (pz s i) /\
  len (px s i) (py s i) (pz s i) <> 0 /\
  px (exec (step Exploded 0 delta i) s) i =
    px s i + px s i / len (px s i) (py s i) (pz s i) * (15 * delta) +
    (rng s 0%nat - 0.5) * 0.2 /\
  py (exec (step Exploded 0 delta i) s) i =
    py s i + py s i / len (px s i) (py s i) (pz s i) * (15 * delta) +
    (rng s 1%nat - 0.5) * 0.2 /\
  pz (exec (step Exploded 0 delta i) s) i =
    pz s i + pz s i / len (px s i) (py s i) (pz s i) * (15 * delta) +
    (rng s 2%nat - 0.5) * 0.2 /\
  (px s i = 0 -> py s i = 0 -> pz s i = 0 ->
   len (px s i) (py s i) (pz s i) = 0.01 /\
   px (exec (step Exploded 0 delta i) s) i = (rng s 0%nat - 0.5) * 0.2 /\
   py (exec (step Exploded 0 delta i) s) i = (rng s 1%nat - 0.5) * 0.2 /\
   pz (exec (step Exploded 0 delta i) s) i = (rng s 2%nat - 0.5) * 0.2).
Proof.
  intros Hlen.
  pose proof (len_positive (px s i) (py s i) (pz s i)) as Hpos.
  change (step Exploded 0 delta i) with (scatter delta i).
  destruct (scatter_readings s delta i Hlen) as (Hx & Hy & Hz & _).
  split; [exact Hpos|]. split; [lra|].
  split; [exact Hx|]. split; [exact Hy|]. split; [exact Hz|].
  intros Ex Ey Ez. rewrite Hx, Hy, Hz, Ex, Ey, Ez, len_origin.
  repeat split; lra.
Qed.

(** A particle at the origin, every draw 0.75, a frame of 1/60 s: it moves
    by the turbulence [(0.75 - 0.5) * 0.2] on the x axis. *)
Lemma scatter_never_divides_by_zero_witness :
  px (exec (step Exploded 0 (1 / 60) 0)
        (mkSim [0; 0; 0; 0.02; 0; 1] (fun _ => 0.75))) 0 = (0.75 - 0.5) * 0.2.
Proof.
  destruct (scatter_never_divides_by_zero
              (mkSim [0; 0; 0; 0.02; 0; 1] (fun _ => 0.75)) (1 / 60) 0)
    as (_ & _ & _ & _ & _ & H).
  - cbn. lia.
  - destruct H as (_ & Hx & _); [reflexivity | reflexivity | reflexivity |].
    exact Hx.
Defined.

End SnowSystemFacts.

(** * Further properties *)

(** ** The gesture mapper: runs, callbacks and the mode *)

Module GestureFacts.
Import HandTracker App.

(** The three branches of [handleHandMove]. *)
Lemma handleHandMove_cases (x : R) :
  (x < 0.45 /\ handleHandMove x = - ((0.45 - x) * 6)) \/
  (0.45 <= x <= 0.55 /\ handleHandMove x = 0) \/
  (0.55 < x /\ handleHandMove x = (x - 0.55) * 6).
Proof.
  unfold handleHandMove, CENTER, DEADZONE, SENSITIVITY.
  destruct (ltb x (0.5 - 0.05)) eqn:E1.
  - apply ltb_true in E1. left. split; lra.
  - apply ltb_false in E1. destruct (gtb x (0.5 + 0.05)) eqn:E2.
    + apply gtb_true in E2. right; right. split; lra.
    + apply gtb_false in E2. right; left. split; lra.
Qed.

(** X1.  The rotation command is odd about the centre of the screen, up to
    [tolerance]: for a hand in view, the mirrored hand position commands the
    opposite speed. *)
Theorem handleHandMove_odd (x : R) :
  0 <= x <= 1 ->
  Rabs (handleHandMove (1 - x) + handleHandMove x) <= tolerance.
Proof.
  intros _. unfold tolerance.
  destruct (handleHandMove_cases x) as [[H ->]|[[H ->]|[H ->]]];
  destruct (handleHandMove_cases (1 - x)) as [[H' ->]|[[H' ->]|[H' ->]]];
  apply Rabs_le; lra.
Qed.

Lemma handleHandMove_odd_witness :
  Rabs (handleHandMove (1 - 0.3) + handleHandMove 0.3) <= tolerance.
Proof. apply handleHandMove_odd. lra. Defined.

(** X2.  The rotation command never decreases as the hand moves right: it is
    negative or 0 left of the dead zone's right end, positive or 0 right of
    its left end; and for a hand in view it changes by at most 6 times the
    distance the hand moves, up to [tolerance]: there is no jump at the ends
    of the dead zone. *)
Theorem handleHandMove_monotone (x y : R) :
  x <= y ->
  handleHandMove x <= handleHandMove y /\
  (x <= 0.55 -> handleHandMove x <= 0) /\
  (0.45 <= y -> 0 <= handleHandMove y) /\
  (0 <= x -> y <= 1 ->
   handleHandMove y - handleHandMove x <= 6 * (y - x) + tolerance).
Proof.
  intros Hxy. unfold tolerance.
  destruct (handleHandMove_cases x) as [[H ->]|[[H ->]|[H ->]]];
  destruct (handleHandMove_cases y) as [[H' ->]|[[H' ->]|[H' ->]]];
  repeat split; intros; lra.
Qed.

Lemma handleHandMove_monotone_witness :
  handleHandMove 0.3 <= handleHandMove 0.9 /\
  (0.3 <= 0.55 -> handleHandMove 0.3 <= 0) /\
  (0.45 <= 0.9 -> 0 <= handleHandMove 0.9) /\
  (0 <= 0.3 -> 0.9 <= 1 ->
   handleHandMove 0.9 - handleHandMove 0.3 <= 6 * (0.9 - 0.3) + tolerance).
Proof. apply handleHandMove_monotone. lra. Defined.

Lemma handleHandMove_range (x : R) :
  0 <= x <= 1 -> -2.7 <= handleHandMove x <= 2.7.
Proof.
  intros Hx.
  destruct (handleHandMove_cases x) as [[H ->]|[[H ->]|[H ->]]]; lra.
Qed.

(** X3.  When the smoothed hand position starts in [0, 1] and every detected
    wrist has its x in [0, 1], every position handed to [onHandMove] over
    the run is in [0, 1], the rotation command [handleHandMove] makes of it
    is in [-2.7, 2.7], and the smoothed position ends in [0, 1]. *)
Theorem hand_moves_in_view (st : Refs) (frames : list Frame) :
  0 <= smoothedX st <= 1 ->
  Forall wrist_in_view frames ->
  Forall (fun x => 0 <= x <= 1 /\ -2.7 <= handleHandMove x <= 2.7)
         (hand_moves st frames) /\
  0 <= smoothedX (run st frames) <= 1.
Proof.
  intros Hst Hfs. revert st Hst.
  induction Hfs as [|f fs Hf _ IH]; intros st Hst.
  - split; [constructor | exact Hst].
  - destruct f as [[|landmarks hands]|].
    + cbn [hand_moves run predictWebcam fst snd]. now apply IH.
    + cbn [hand_moves run predictWebcam onHand fst snd handMove].
      cbn [wrist_in_view] in Hf.
      set (x := smoothedX st +
                (1 - lx (landmark landmarks 0) - smoothedX st) * posAlpha).
      assert (Hx : 0 <= x <= 1) by (subst x; unfold posAlpha; lra).
      destruct (IH (mkRefs x (smooth (smoothedRatio st) (rawRatio landmarks))
                      (fst (hysteresis (isOpenState st)
                              (smooth (smoothedRatio st) (rawRatio landmarks))))))
        as [Hall Hend]; [exact Hx|].
      split; [|exact Hend].
      constructor; [|exact Hall].
      split; [exact Hx | now apply handleHandMove_range].
    + cbn [hand_moves run predictWebcam fst snd]. now apply IH.
Qed.

Lemma hand_moves_in_view_witness :
  Forall (fun x => 0 <= x <= 1 /\ -2.7 <= handleHandMove x <= 2.7)
         (hand_moves init [Some [hand 2]; None; Some [hand 1]]) /\
  0 <= smoothedX (run init [Some [hand 2]; None; Some [hand 1]]) <= 1.
Proof.
  apply hand_moves_in_view.
  - cbn [init smoothedX]. lra.
  - repeat constructor; cbn; lra.
Defined.

(** X4.  Frames without a hand (no new video frame, or no landmarks) are
    transparent: dropping them from a run changes neither the refs it ends
    in, nor the calls of [onGestureChange], nor those of [onHandMove]. *)
Theorem no_hand_frames_transparent (st : Refs) (frames : list Frame) :
  run st (List.filter has_hand frames) = run st frames /\
  gesture_events st (List.filter has_hand frames) = gesture_events st frames /\
  hand_moves st (List.filter has_hand frames) = hand_moves st frames.
Proof.
  revert st. induction frames as [|f fs IH]; intros st; [repeat split|].
  destruct f as [[|landmarks hands]|]; cbn [List.filter has_hand].
  - cbn [run gesture_events hand_moves predictWebcam fst snd]. apply IH.
  - cbn [run gesture_events hand_moves predictWebcam fst snd].
    destruct (IH (fst (onHand st landmarks))) as (-> & -> & ->).
    repeat split.
  - cbn [run gesture_events hand_moves predictWebcam fst snd]. apply IH.
Qed.

Lemma last_default {A : Type} (l : list A) (d d' : A) :
  l <> [] -> List.last l d = List.last l d'.
Proof.
  induction l as [|a l IH]; intros Hl; [congruence|].
  destruct l as [|b l]; [reflexivity|].
  cbn [List.last] in *. apply IH. discriminate.
Qed.

Lemma isOpenState_run (st : Refs) (frames : list Frame) :
  isOpenState (run st frames) =
  List.last (gesture_events st frames) (isOpenState st).
Proof.
  revert st. induction frames as [|f fs IH]; intros st; [reflexivity|].
  destruct f as [[|landmarks hands]|];
    cbn [run gesture_events predictWebcam fst snd]; try apply IH.
  rewrite IH. cbn [onHand fst snd isOpenState].
  set (r := smooth (smoothedRatio st) (rawRatio landmarks)).
  destruct (HandTrackerFacts.hysteresis_cases (isOpenState st) r)
    as [(_ & _ & ->)|[(_ & _ & ->)|(_ & ->)]]; cbn [fst snd].
  - destruct (gesture_events _ fs) as [|e es]; [reflexivity|].
    cbn [List.last]. apply (last_default (e :: es)). discriminate.
  - destruct (gesture_events _ fs) as [|e es]; [reflexivity|].
    cbn [List.last]. apply (last_default (e :: es)). discriminate.
  - reflexivity.
Qed.

Lemma handleGesture_target (isOpen : bool) (prev : InteractionState) :
  handleGesture isOpen prev = if isOpen then Exploded else Tree.
Proof. now destruct isOpen, prev. Qed.

Lemma modeAfter_last (events : list bool) (m : InteractionState) :
  modeAfter events m =
  match events with
  | [] => m
  | e :: _ => if List.last events e then Exploded else Tree
  end.
Proof.
  unfold modeAfter. revert m. induction events as [|e es IH]; intros m.
  - reflexivity.
  - cbn [fold_left]. rewrite IH, handleGesture_target.
    destruct es as [|e' es']; [reflexivity|].
    change (List.last (e :: e' :: es') e) with (List.last (e' :: es') e).
    now rewrite (last_default (e' :: es') e' e).
Qed.

(** X5.  Gestures keep the mode in step with the tracker.  Over any run, if
    [onGestureChange] was called at all, the mode the calls of
    [handleGesture] leave is Exploded when the tracker ends Open and Tree
    when it ends Closed, whatever the mode was before; if it was never
    called, the mode and the tracker state are as they were. *)
Theorem gestures_set_mode (st : Refs) (frames : list Frame) (m : InteractionState) :
  modeAfter (gesture_events st frames) m =
  match gesture_events st frames with
  | [] => m
  | _ :: _ => if isOpenState (run st frames) then Exploded else Tree
  end /\
  match gesture_events st frames with
  | [] => isOpenState (run st frames) = isOpenState st
  | _ :: _ => True
  end.
Proof.
  rewrite modeAfter_last, isOpenState_run.
  destruct (gesture_events st frames) as [|e es] eqn:E; [split; reflexivity|].
  split; [|exact I].
  rewrite (last_default (e :: es) e (isOpenState st)); [reflexivity|].
  discriminate.
Qed.

End GestureFacts.

(** ** The snow: isolation and invariants over histories *)

Module SnowHistoryFacts.
Import SnowSystem SnowSystemFacts.

Lemma touches_ret {A : Type} (i : nat) (a : A) : only_touches i (ret a : St Sim A).
Proof. intros s k Hk. reflexivity. Qed.

Lemma touches_bind {A B : Type} (i : nat) (m : St Sim A) (f : A -> St Sim B) :
  only_touches i m -> (forall a, only_touches i (f a)) -> only_touches i (bind m f).
Proof.
  intros Hm Hf s k Hk. rewrite exec_bind, Hf, Hm by exact Hk. reflexivity.
Qed.

Lemma touches_random (i : nat) : only_touches i random.
Proof. intros s k Hk. reflexivity. Qed.

Lemma touches_load (i j : nat) : only_touches i (load j).
Proof. intros s k Hk. reflexivity. Qed.

Lemma touches_store (i j : nat) (v : R) :
  (i * 6 <= j < i * 6 + 6)%nat -> only_touches i (store j v).
Proof.
  intros Hj s k Hk. unfold exec, store. cbn [snd particles].
  apply get_set_ne. lia.
Qed.

Lemma touches_for_loop (i k : nat) (body : nat -> St Sim unit) :
  (forall j, only_touches i (body j)) -> only_touches i (for_loop k body).
Proof.
  intros Hb. induction k as [|k IH]; intros s x Hx; [reflexivity|].
  rewrite exec_for_loop_S, Hb, IH by exact Hx. reflexivity.
Qed.

Lemma touches_add_to (i j : nat) (v : R) :
  (i * 6 <= j < i * 6 + 6)%nat -> only_touches i (add_to j v).
Proof.
  intros Hj. unfold add_to. apply touches_bind; [apply touches_load|].
  intros old. now apply touches_store.
Qed.

(** Walk down a computation on particle [i], one operation at a time. *)
Ltac touch :=
  cbv zeta;
  repeat match goal with
  | |- only_touches _ (ret _) => apply touches_ret
  | |- only_touches _ random => apply touches_random
  | |- only_touches _ (load _) => apply touches_load
  | |- only_touches _ (store _ _) => apply touches_store; lia
  | |- only_touches _ (add_to _ _) => apply touches_add_to; lia
  | |- only_touches _ (bind _ _) => apply touches_bind; [|intros ?]
  | |- only_touches _ (if ?c then _ else _) => destruct c
  end.

Lemma touches_resetParticle (i : nat) (b : bool) : only_touches i (resetParticle i b).
Proof. unfold resetParticle. touch. Qed.

Lemma touches_fall (time delta : R) (i : nat) : only_touches i (fall time delta i).
Proof. unfold fall. touch; apply touches_resetParticle. Qed.

Lemma touches_melt (i : nat) : only_touches i (melt i).
Proof. unfold melt. touch; apply touches_resetParticle. Qed.

Lemma touches_scatter (delta : R) (i : nat) : only_touches i (scatter delta i).
Proof. unfold scatter. touch. Qed.

Lemma touches_step (mode : InteractionState) (time delta : R) (i : nat) :
  only_touches i (step mode time delta i).
Proof.
  unfold step. touch;
    [apply touches_fall | apply touches_melt | apply touches_scatter].
Qed.

(** X7.  The update of particle [i] writes the six slots of particle [i]
    only: every slot of every other particle reads after it as before, in
    both modes and whatever the particle does (fall, land, melt, reset,
    scatter). *)
Theorem step_isolated (mode : InteractionState) (time delta : R) (i : nat)
    (s : Sim) (k : nat) :
  (k < i * 6 \/ i * 6 + 6 <= k)%nat ->
  get (particles (exec (step mode time delta i) s)) k = get (particles s) k.
Proof. intros Hk. now apply touches_step. Qed.

(** Two particles; the step of the second one lands it and leaves the state
    slot of the first one alone. *)
Lemma step_isolated_witness :
  get (particles (exec (step Tree 0 (1 / 60) 1)
                    (mkSim [1; 7; 1; 0.02; 0; 0; 0; -4.99; 0; 0.02; 0; 0]
                           (fun _ => 0.5)))) 5 =
  get (particles (mkSim [1; 7; 1; 0.02; 0; 0; 0; -4.99; 0; 0.02; 0; 0]
                        (fun _ => 0.5))) 5.
Proof. apply step_isolated. lia. Defined.

(** *** Loops over the particles *)

Lemma same_particle_refl (j : nat) (s : Sim) : same_particle j s s.
Proof. intros k Hk. reflexivity. Qed.

Lemma same_particle_other {A : Type} (i j : nat) (m : St Sim A) (s : Sim) :
  only_touches i m -> i <> j -> same_particle j s (exec m s).
Proof. intros Hm Hij k Hk. apply Hm. lia. Qed.

(** A loop whose body [i] writes particle [i] only and takes it from [P] to
    [Q] takes the first [m] particles from [P] to [Q] and keeps [P] for the
    others, when [P] and [Q] read nothing but the particle they speak of. *)
Lemma loop_particles (n : nat) (body : nat -> St Sim unit)
    (P Q : Sim -> nat -> Prop) :
  (forall i, only_touches i (body i)) ->
  (forall i, keeps n (body i)) ->
  (forall j s s', same_particle j s s' -> P s j -> P s' j) ->
  (forall j s s', same_particle j s s' -> Q s j -> Q s' j) ->
  (forall s i, inv n s -> (i < n)%nat -> P s i -> Q (exec (body i) s) i) ->
  forall m s, (m <= n)%nat -> inv n s -> (forall j, (j < n)%nat -> P s j) ->
    inv n (exec (for_loop m body) s) /\
    (forall j, (j < m)%nat -> Q (exec (for_loop m body) s) j) /\
    (forall j, (m <= j)%nat -> (j < n)%nat -> P (exec (for_loop m body) s) j).
Proof.
  intros Ht Hk HP HQ Hstep. induction m as [|m IH]; intros s Hm Hinv Hall.
  - rewrite exec_for_loop_0. repeat split; [apply Hinv.. | lia | auto].
  - destruct (IH s) as (Hinv' & Hdone & Hrest); [lia | assumption..|].
    rewrite exec_for_loop_S.
    set (s1 := exec (for_loop m body) s) in *.
    split; [now apply Hk|]. split.
    + intros j Hj. destruct (Nat.eq_dec j m) as [->|Hne].
      * apply Hstep; [assumption | lia | apply Hrest; lia].
      * apply (HQ j s1); [|apply Hdone; lia].
        apply (same_particle_other m j); [apply Ht | congruence].
    + intros j Hj Hjn. apply (HP j s1); [|apply Hrest; lia].
      apply (same_particle_other m j); [apply Ht | lia].
Qed.

Lemma settled_local (j : nat) (s s' : Sim) :
  same_particle j s s' -> settled s j -> settled s' j.
Proof.
  intros H. unfold settled, state, px, py, pz.
  pose proof (H 0%nat) as H0. pose proof (H 1%nat) as H1.
  pose proof (H 2%nat) as H2. pose proof (H 5%nat) as H5.
  rewrite Nat.add_0_r in H0.
  rewrite H0, H1, H2, H5 by lia. tauto.
Qed.

(** The body of the loop for a landed particle in Tree mode, written out:
    one draw, and a reset if the draw is below 0.001. *)
Lemma exec_step_landed (s : Sim) (time delta : R) (i : nat) :
  falling s i = false ->
  exec (step Tree time delta i) s =
  (if ltb (rng s 0%nat) 0.001 then exec (resetParticle i false) else fun s1 => s1)
    (mkSim (particles s) (fun n => rng s (S n))).
Proof.
  intros Hf. unfold step. cbn [InteractionState_eqb].
  rewrite exec_bind. unfold falling, state in Hf.
  unfold load at 1 2. unfold exec in *. cbn [fst snd] in *. rewrite Hf.
  unfold melt, bind, random. cbn [fst snd].
  destruct (ltb _ _); reflexivity.
Qed.

Lemma state_resetParticle (i : nat) (b : bool) (s : Sim) :
  (i * 6 + 5 < length (particles s))%nat ->
  state (exec (resetParticle i b) s) i = 0.
Proof.
  intros Hlen. rewrite exec_resetParticle. unfold state. cbn [particles].
  slots. reflexivity.
Qed.

(** One update keeps its particle settled. *)
Lemma settled_step (n : nat) (mode : InteractionState) (time delta : R)
    (s : Sim) (i : nat) :
  inv n s -> (i < n)%nat -> settled s i ->
  settled (exec (step mode time delta i) s) i.
Proof.
  intros [Hs Hg] Hi Hset. unfold sized in Hs.
  assert (Hlen : (i * 6 + 5 < length (particles s))%nat) by lia.
  destruct mode.
  - destruct (falling s i) eqn:Hf.
    + rewrite (exec_step_falling s time delta i Hlen Hf).
      destruct (leb _ _) eqn:Ey.
      * destruct (ltb _ _) eqn:Ed.
        -- right. unfold state, px, py, pz. cbn [particles]. slots.
           split; [reflexivity|]. split.
           ++ pose proof (Hg 0%nat).
              unfold groundLevel, accumulationHeight. lra.
           ++ apply ltb_true in Ed. apply within_radius;
                [unfold accumulationRadius; lra | exact Ed].
        -- left. apply state_resetParticle. cbn [particles].
           rewrite !length_set. exact Hlen.
      * left. unfold state. cbn [particles]. slots.
        unfold falling, state in Hf. now apply eqb_true in Hf.
    + rewrite (exec_step_landed s time delta i Hf).
      destruct (ltb _ _).
      * left. apply state_resetParticle. cbn [particles]. exact Hlen.
      * apply (settled_local i s); [|exact Hset]. intros k Hk. reflexivity.
  - left. change (step Exploded time delta i) with (scatter delta i).
    now apply scatter_readings.
Qed.

Lemma keeps_tick (n : nat) (t : Tick) : keeps n (tick n t).
Proof.
  destruct t; cbn [tick].
  - apply keeps_useFrame.
  - apply keeps_bind; [apply keeps_modeEffect | intros ?; apply keeps_ret].
Qed.

Lemma settled_useFrame (mounted : bool) (n : nat) (mode : InteractionState)
    (time delta : R) (s : Sim) :
  inv n s -> (forall j, (j < n)%nat -> settled s j) ->
  forall j, (j < n)%nat ->
    settled (exec (useFrame mounted n mode time delta) s) j.
Proof.
  intros Hinv Hall. unfold useFrame. destruct mounted; cbn [negb]; [|exact Hall].
  destruct (loop_particles n (step mode time delta) settled settled) with
    (m := n) (s := s) as (_ & Hdone & _); try assumption; try lia.
  - intros i. apply touches_step.
  - intros i. apply keeps_step.
  - apply settled_local.
  - apply settled_local.
  - intros s0 i H0 Hi Hp. now apply (settled_step n).
Qed.

Lemma settled_reset_loop (n : nat) (s : Sim) (b : bool) :
  inv n s ->
  forall j, (j < n)%nat ->
    settled (exec (for_loop n (fun i => resetParticle i b)) s) j.
Proof.
  intros Hinv.
  destruct (loop_particles n (fun i => resetParticle i b)
              (fun _ _ => True) settled) with (m := n) (s := s)
    as (_ & Hdone & _); try assumption; try lia; auto.
  - intros i. apply touches_resetParticle.
  - intros i. apply keeps_resetParticle.
  - apply settled_local.
  - intros s0 i [H0 _] Hi _. left. apply state_resetParticle.
    unfold sized in H0. lia.
Qed.

Lemma settled_tick (n : nat) (t : Tick) (s : Sim) :
  inv n s -> (forall j, (j < n)%nat -> settled s j) ->
  forall j, (j < n)%nat -> settled (exec (tick n t) s) j.
Proof.
  intros Hinv Hall. destruct t as [mounted mode time delta|prevMode mode];
    cbn [tick].
  - now apply settled_useFrame.
  - rewrite exec_bind. unfold exec at 1. cbn [ret snd].
    unfold modeEffect. rewrite exec_bind. unfold exec at 1. cbn [ret snd].
    destruct (_ && _); [now apply settled_reset_loop | exact Hall].
Qed.

Lemma play_settled (n : nat) (history : list Tick) (s : Sim) :
  inv n s -> (forall j, (j < n)%nat -> settled s j) ->
  inv n (play n history s) /\
  (forall j, (j < n)%nat -> settled (play n history s) j).
Proof.
  unfold play. revert s. induction history as [|t ts IH]; intros s Hinv Hall.
  - split; assumption.
  - cbn [fold_left]. apply IH; [now apply keeps_tick | now apply settled_tick].
Qed.

Lemma init_settled (n : nat) (g : Rng) :
  unit_interval g -> forall j, (j < n)%nat -> settled (init n g) j.
Proof.
  intros Hg. unfold init. apply settled_reset_loop.
  split; [|exact Hg]. unfold sized. cbn [particles]. apply length_Float32Array.
Qed.

(** X8.  The number of particles never changes: started from the initial
    buffer of [n] particles, after any history of frames (mounted or not, in
    either mode) and runs of the mode effect the buffer still has [6 * n]
    slots, and the random source still draws from [0, 1). *)
Theorem snow_count_conserved (n : nat) (g : Rng) (history : list Tick) :
  unit_interval g ->
  sized n (play n history (init n g)) /\
  unit_interval (rng (play n history (init n g))).
Proof.
  intros Hg.
  destruct (play_settled n history (init n g)) as [Hinv _];
    [now apply inv_init | now apply init_settled | exact Hinv].
Qed.

Lemma snow_count_conserved_witness :
  sized count
    (play count [FrameTick true Tree 0 (1 / 60); EffectTick Tree Exploded;
                 FrameTick true Exploded 1 (1 / 60); EffectTick Exploded Tree]
          (init count (fun _ => 0.5))) /\
  unit_interval
    (rng (play count [FrameTick true Tree 0 (1 / 60); EffectTick Tree Exploded;
                      FrameTick true Exploded 1 (1 / 60); EffectTick Exploded Tree]
               (init count (fun _ => 0.5)))).
Proof. apply snow_count_conserved. intros k. lra. Defined.

(** A falling particle that reaches its local ground near the axis lands. *)
Lemma step_lands (s : Sim) (time delta : R) (i : nat) :
  (i * 6 + 5 < length (particles s))%nat ->
  falling s i = true ->
  py s i - velocityY s i * (delta * 60) <=
    groundLevel + rng s 0%nat * accumulationHeight ->
  (px s i + sin (time + wobblePhase s i) * 0.005) *
  (px s i + sin (time + wobblePhase s i) * 0.005) +
  (pz s i + cos (time * 0.8 + wobblePhase s i) * 0.005) *
  (pz s i + cos (time * 0.8 + wobblePhase s i) * 0.005) <
    accumulationRadius * accumulationRadius ->
  state (exec (step Tree time delta i) s) i = 1.
Proof.
  intros Hlen Hf Hy Hd.
  rewrite (exec_step_falling s time delta i Hlen Hf).
  replace (leb _ _) with true by (symmetry; now apply leb_true).
  replace (ltb _ _) with true by (symmetry; now apply ltb_true).
  unfold state. cbn [particles]. slots. reflexivity.
Qed.

(** X9.  Snow only rests on the ground under the tree: started from the
    initial buffer, after any history of frames and mode effects every
    particle is either falling or landed with state 1, at a height in
    [-5, -4.8) and closer than 4.5 to the vertical axis. *)
Theorem landed_snow_in_footprint (n : nat) (g : Rng) (history : list Tick)
    (j : nat) :
  unit_interval g -> (j < n)%nat ->
  settled (play n history (init n g)) j.
Proof.
  intros Hg Hj.
  destruct (play_settled n history (init n g)) as [_ Hall];
    [now apply inv_init | now apply init_settled | now apply Hall].
Qed.

(** One particle that comes to rest.  Its first draw is 0, which puts it on
    the vertical axis at height 25; a Tree frame of 30 s takes it below the
    ground, where it lands, at state 1 and settled. *)
Lemma landed_snow_in_footprint_witness :
  state (play 1 [FrameTick true Tree 0 30]
           (init 1 (fun k => match k with O => 0 | _ => 0.5 end))) 0 = 1 /\
  settled (play 1 [FrameTick true Tree 0 30]
             (init 1 (fun k => match k with O => 0 | _ => 0.5 end))) 0.
Proof.
  split.
  - unfold play, init. cbn [fold_left tick]. unfold useFrame. cbn [negb].
    rewrite !exec_for_loop_S, !exec_for_loop_0, exec_resetParticle.
    cbn [particles rng].
    apply step_lands.
    + cbn [particles]. rewrite !length_set. cbn. lia.
    + unfold falling, state, get, set. cbn. now apply eqb_true.
    + unfold py, velocityY, groundLevel, accumulationHeight, get, set.
      cbn. lra.
    + unfold px, pz, wobblePhase, accumulationRadius, get, set. cbn.
      rewrite sqrt_0.
      pose proof (SIN_bound (0 + 0.5 * PI * 2)) as Hsin.
      pose proof (COS_bound (0 * 0.8 + 0.5 * PI * 2)) as Hcos.
      nra.
  - apply landed_snow_in_footprint; [intros [|k]; lra | lia].
Defined.

(** X10.  A mounted frame in Exploded mode leaves no particle landed,
    whatever the particles were before. *)
Theorem exploded_frame_unlands (n : nat) (time delta : R) (s : Sim) :
  sized n s ->
  landed (exec (useFrame true n Exploded time delta) s) n = 0%nat.
Proof.
  intros Hs. apply landed_zero. unfold useFrame. cbn [negb].
  enough (H : forall m s0, (m <= n)%nat -> sized n s0 ->
                sized n (exec (for_loop m (step Exploded time delta)) s0) /\
                forall i, (i < m)%nat ->
                  state (exec (for_loop m (step Exploded time delta)) s0) i = 0).
  { apply (H n s); [lia | exact Hs]. }
  induction m as [|m IH]; intros s0 Hm Hs0.
  - rewrite exec_for_loop_0. split; [exact Hs0 | intros; lia].
  - destruct (IH s0) as [Hs1 Hdone]; [lia | exact Hs0|].
    rewrite exec_for_loop_S.
    set (s1 := exec (for_loop m (step Exploded time delta)) s0) in *.
    change (step Exploded time delta m) with (scatter delta m).
    unfold sized in Hs1.
    split.
    + unfold sized, scatter, add_to, bind, load, store, random, exec.
      cbn [fst snd particles]. now rewrite !length_set.
    + intros i Hi. destruct (Nat.eq_dec i m) as [->|Hne].
      * apply scatter_readings. lia.
      * unfold state. rewrite touches_scatter by lia. apply Hdone. lia.
Qed.

(** Two landed particles: after an Exploded frame none is landed. *)
Lemma exploded_frame_unlands_witness :
  landed (exec (useFrame true 2 Exploded 0 (1 / 60))
            (mkSim [1; -5; 1; 0.02; 0; 1; 2; -5; 2; 0.02; 0; 1] (fun _ => 0.5)))
         2 = 0%nat.
Proof. apply exploded_frame_unlands. reflexivity. Defined.

(** *** One particle *)

Lemma polar_distance (r a : R) :
  0 <= r -> horizontalDistance (r * cos a) (r * sin a) = r.
Proof.
  intros Hr. unfold horizontalDistance.
  replace (r * cos a * (r * cos a) + r * sin a * (r * sin a))
    with (r * r * (Rsqr (sin a) + Rsqr (cos a))) by (unfold Rsqr; ring).
  rewrite sin2_cos2, Rmult_1_r. now apply sqrt_square.
Qed.

(** X11.  A reset particle is a fresh snowflake: falling, within 45.01 of
    the vertical axis (45, and a margin for the rounding of the stored
    coordinates), at a height between 5 and 45 when [fullRandomY] is set and
    between 30 and 45 when it is not, with a fall speed that is positive and
    at most 0.04. *)
Theorem resetParticle_spawn (i : nat) (fullRandomY : bool) (s : Sim) :
  (i * 6 + 5 < length (particles s))%nat ->
  unit_interval (rng s) ->
  falling (exec (resetParticle i fullRandomY) s) i = true /\
  horizontalDistance (px (exec (resetParticle i fullRandomY) s) i)
                     (pz (exec (resetParticle i fullRandomY) s) i) <= 45.01 /\
  (if fullRandomY then 5 else 30) <=
    py (exec (resetParticle i fullRandomY) s) i <= 45 /\
  0 < velocityY (exec (resetParticle i fullRandomY) s) i <= 0.04.
Proof.
  intros Hlen Hg. rewrite exec_resetParticle.
  unfold falling, state, px, py, pz, velocityY. cbn [particles].
  slots.
  pose proof (Hg 0%nat) as H0. pose proof (Hg 2%nat) as H2.
  pose proof (Hg 3%nat) as H3.
  split; [now apply eqb_true|]. split.
  - assert (Hs : 0 <= sqrt (rng s 0%nat) < 1).
    { split; [apply sqrt_pos|].
      rewrite <- sqrt_1. apply sqrt_lt_1_alt. lra. }
    rewrite polar_distance by lra. lra.
  - split; [destruct fullRandomY; lra|]. lra.
Qed.

(** A landed particle is reset at the top; every draw is 0.5. *)
Lemma resetParticle_spawn_witness :
  falling (exec (resetParticle 0 false)
             (mkSim [0; -5; 0; 0.02; 0; 1] (fun _ => 0.5))) 0 = true /\
  horizontalDistance
    (px (exec (resetParticle 0 false)
           (mkSim [0; -5; 0; 0.02; 0; 1] (fun _ => 0.5))) 0)
    (pz (exec (resetParticle 0 false)
           (mkSim [0; -5; 0; 0.02; 0; 1] (fun _ => 0.5))) 0) <= 45.01 /\
  30 <= py (exec (resetParticle 0 false)
              (mkSim [0; -5; 0; 0.02; 0; 1] (fun _ => 0.5))) 0 <= 45 /\
  0 < velocityY (exec (resetParticle 0 false)
                   (mkSim [0; -5; 0; 0.02; 0; 1] (fun _ => 0.5))) 0 <= 0.04.
Proof.
  apply (resetParticle_spawn 0 false
           (mkSim [0; -5; 0; 0.02; 0; 1] (fun _ => 0.5))).
  - cbn. lia.
  - intros k. cbn [rng]. lra.
Defined.

(** X12.  In Tree mode a falling particle that is still above its local
    ground after this frame's fall just keeps falling: its height is
    assigned [y - velocityY * (delta * 60)], it drifts by at most 0.01 on
    the x and on the z axis (0.005, and a margin for the rounding of the
    stored coordinate), keeps its speed, phase and state, and spends one
    draw. *)
Theorem fall_above_ground (s : Sim) (time delta : R) (i : nat) :
  (i * 6 + 5 < length (particles s))%nat ->
  falling s i = true ->
  groundLevel + rng s 0%nat * accumulationHeight <
    py s i - velocityY s i * (delta * 60) ->
  falling (exec (step Tree time delta i) s) i = true /\
  py (exec (step Tree time delta i) s) i = py s i - velocityY s i * (delta * 60) /\
  Rabs (px (exec (step Tree time delta i) s) i - px s i) <= 0.01 /\
  Rabs (pz (exec (step Tree time delta i) s) i - pz s i) <= 0.01 /\
  velocityY (exec (step Tree time delta i) s) i = velocityY s i /\
  wobblePhase (exec (step Tree time delta i) s) i = wobblePhase s i /\
  (forall k, rng (exec (step Tree time delta i) s) k = rng s (S k)).
Proof.
  intros Hlen Hf Hy.
  rewrite (exec_step_falling s time delta i Hlen Hf).
  replace (leb _ _) with false by (symmetry; now apply leb_false).
  unfold falling, state, px, py, pz, velocityY, wobblePhase in *.
  cbn [particles rng]. slots.
  pose proof (SIN_bound (time + get (particles s) (i * 6 + 4))) as Hsin.
  pose proof (COS_bound (time * 0.8 + get (particles s) (i * 6 + 4))) as Hcos.
  repeat split; try reflexivity; try exact Hf; apply Rabs_le; lra.
Qed.

(** A particle high above the ground. *)
Lemma fall_above_ground_witness :
  py (exec (step Tree 0 (1 / 60) 0)
        (mkSim [1; 10; 1; 0.02; 0; 0] (fun _ => 0.5))) 0 =
  py (mkSim [1; 10; 1; 0.02; 0; 0] (fun _ => 0.5)) 0 -
  velocityY (mkSim [1; 10; 1; 0.02; 0; 0] (fun _ => 0.5)) 0 * (1 / 60 * 60) /\
  Rabs (px (exec (step Tree 0 (1 / 60) 0)
              (mkSim [1; 10; 1; 0.02; 0; 0] (fun _ => 0.5))) 0 -
        px (mkSim [1; 10; 1; 0.02; 0; 0] (fun _ => 0.5)) 0) <= 0.01.
Proof.
  destruct (fall_above_ground (mkSim [1; 10; 1; 0.02; 0; 0] (fun _ => 0.5))
              0 (1 / 60) 0) as (_ & Hy & Hx & _).
  - cbn. lia.
  - apply eqb_true. reflexivity.
  - unfold py, velocityY, get, groundLevel, accumulationHeight. cbn. lra.
  - split; [exact Hy | exact Hx].
Defined.

(** X13.  In Tree mode a landed particle does not move: when this frame's
    draw is 0.001 or more the whole buffer is as it was; when the draw is
    below 0.001 the particle is reset, so it is falling again, from a height
    of 30 or more. *)
Theorem landed_stays_or_melts (s : Sim) (time delta : R) (i : nat) :
  (i * 6 + 5 < length (particles s))%nat ->
  falling s i = false ->
  (0.001 <= rng s 0%nat ->
   particles (exec (step Tree time delta i) s) = particles s) /\
  (rng s 0%nat < 0.001 ->
   falling (exec (step Tree time delta i) s) i = true /\
   py (exec (step Tree time delta i) s) i = 30 + rng s 3%nat * 15).
Proof.
  intros Hlen Hf. rewrite (exec_step_landed s time delta i Hf). split; intros Hu.
  - replace (ltb _ _) with false by (symmetry; now apply ltb_false).
    reflexivity.
  - replace (ltb _ _) with true by (symmetry; now apply ltb_true).
    rewrite exec_resetParticle. unfold falling, state, py.
    cbn [particles rng]. slots. split; [now apply eqb_true | reflexivity].
Qed.

(** A landed particle and a draw of 0.5. *)
Lemma landed_stays_or_melts_witness :
  particles (exec (step Tree 0 (1 / 60) 0)
               (mkSim [1; -5; 1; 0.02; 0; 1] (fun _ => 0.5))) =
  [1; -5; 1; 0.02; 0; 1].
Proof.
  destruct (landed_stays_or_melts (mkSim [1; -5; 1; 0.02; 0; 1] (fun _ => 0.5))
              0 (1 / 60) 0) as [Hstay _].
  - cbn. lia.
  - apply eqb_false. unfold state, get. cbn. lra.
  - apply Hstay. cbn [rng]. lra.
Defined.

End SnowHistoryFacts.

(** ** The instances: where the targets lie, and rest *)

Module PlacementFacts.
Import InstancedShape InstancedShapeFacts.

(** The explosion slots the first [n] iterations leave. *)
Lemma place_loop_explode (count n : nat) (s0 : Gen) :
  (n * 3 <= length (explode s0))%nat ->
  length (explode (exec (for_loop n (place count)) s0)) = length (explode s0) /\
  (forall k, rng (exec (for_loop n (place count)) s0) k = rng s0 (5 * n + k)%nat) /\
  (forall i, (i < n)%nat ->
     exists phi a : R,
       position (explode (exec (for_loop n (place count)) s0)) i =
       ((15 + rng s0 (5 * i + 2)%nat * 10) * cos a * sin phi,
        (15 + rng s0 (5 * i + 2)%nat * 10) * sin a * sin phi,
        (15 + rng s0 (5 * i + 2)%nat * 10) * cos phi)).
Proof.
  induction n as [|n IH]; intros Hlen.
  - rewrite exec_for_loop_0. repeat split; try reflexivity; intros; lia.
  - destruct IH as (He & Hr & Hset); [lia|].
    rewrite exec_for_loop_S, exec_place.
    set (s := exec (for_loop n (place count)) s0) in *.
    cbn [tree explode rng].
    split; [now rewrite !length_set|].
    split; [intros k; rewrite Hr; f_equal; lia|].
    intros i Hi. destruct (Nat.eq_dec i n) as [->|Hne].
    + exists (acos (-1 + 2 * INR n / INR count)),
             (sqrt (INR count * PI) * acos (-1 + 2 * INR n / INR count)).
      unfold position. rewrite !Hr.
      rewrite get_set_ne, get_set_ne, get_set_eq by lia.
      rewrite get_set_ne, get_set_eq by (rewrite ?length_set; lia).
      rewrite get_set_eq by (rewrite ?length_set; lia).
      reflexivity.
    + destruct (Hset i) as (phi & a & E); [lia|].
      exists phi, a. rewrite <- E. unfold position.
      now rewrite !get_set_ne by lia.
Qed.

Lemma distance_origin_spherical (r phi a : R) :
  0 <= r ->
  distance (r * cos a * sin phi, r * sin a * sin phi, r * cos phi) (0, 0, 0) = r.
Proof.
  intros Hr. unfold distance.
  replace ((r * cos a * sin phi - 0) * (r * cos a * sin phi - 0) +
           (r * sin a * sin phi - 0) * (r * sin a * sin phi - 0) +
           (r * cos phi - 0) * (r * cos phi - 0))
    with (r * r * (Rsqr (sin phi) * (Rsqr (sin a) + Rsqr (cos a)) + Rsqr (cos phi)))
    by (unfold Rsqr; ring).
  rewrite sin2_cos2, Rmult_1_r, sin2_cos2, Rmult_1_r.
  now apply sqrt_square.
Qed.

(** X14.  Every explosion target lies in the shell between the spheres of
    radius 15 and 25 about the origin, given with a margin of 0.01 for the
    rounding of the three stored coordinates: its distance from the origin
    is at least 14.99 and at most 25.01. *)
Theorem explode_targets_in_shell (count : nat) (g : Rng) (i : nat) :
  unit_interval g -> (i < count)%nat ->
  14.99 <= distance (position (explode (targets count g)) i) (0, 0, 0) <= 25.01.
Proof.
  intros Hg Hi. unfold targets.
  destruct (place_loop_explode count count
              (mkGen (Float32Array (count * 3)) (Float32Array (count * 3)) g))
    as (_ & _ & Hset).
  { cbn [explode]. now rewrite length_Float32Array. }
  destruct (Hset i Hi) as (phi & a & ->). cbn [rng].
  pose proof (Hg (5 * i + 2)%nat).
  rewrite distance_origin_spherical by lra. lra.
Qed.

Lemma explode_targets_in_shell_witness :
  14.99 <= distance (position (explode (targets 4 (fun _ => 0.5))) 2) (0, 0, 0)
        <= 25.01.
Proof.
  apply (explode_targets_in_shell 4 (fun _ => 0.5) 2); [intros k; lra | lia].
Defined.

Lemma radius_range (count i : nat) :
  (i < count)%nat -> 0.2 < radius count i <= 3.7.
Proof.
  intros Hi. unfold radius, level, y.
  assert (Hc : 0 < INR count) by (apply lt_0_INR; lia).
  assert (H0 : 0 <= INR i / INR count).
  { apply Rmult_le_pos; [apply pos_INR | left; now apply Rinv_0_lt_compat]. }
  assert (H1 : INR i / INR count < 1).
  { apply (Rmult_lt_reg_r (INR count)); [exact Hc|].
    unfold Rdiv. rewrite Rmult_assoc, Rinv_l, Rmult_1_r, Rmult_1_l by lra.
    apply lt_INR. lia. }
  lra.
Qed.

(** X15.  The tree stands inside the disc on which snow may land: every
    tree target has a height in [-5, 5) and lies closer than 4.5, the
    accumulation radius of the snow, to the vertical axis. *)
Theorem tree_inside_snow_disc (count : nat) (g : Rng) (i : nat) :
  unit_interval g -> (i < count)%nat ->
  -5 <= get (tree (targets count g)) (i * 3 + 1) < 5 /\
  SnowSystem.horizontalDistance (get (tree (targets count g)) (i * 3))
                                (get (tree (targets count g)) (i * 3 + 2))
    < SnowSystem.accumulationRadius.
Proof.
  intros Hg Hi. unfold targets.
  destruct (place_loop count count
              (mkGen (Float32Array (count * 3)) (Float32Array (count * 3)) g))
    as (_ & _ & _ & _ & Hset).
  { cbn [tree]. now rewrite length_Float32Array. }
  destruct (Hset i Hi) as (-> & -> & ->). cbn [rng].
  pose proof (radius_range count i Hi) as Hr.
  split.
  - unfold radius, level in Hr. lra.
  - apply SnowSystemFacts.within_radius;
      [unfold SnowSystem.accumulationRadius; lra|].
    unfold SnowSystem.accumulationRadius, jitter.
    pose proof (Hg (5 * i)%nat) as Ha. pose proof (Hg (5 * i + 1)%nat) as Hb.
    pose proof (sin2_cos2 (theta i)) as Hsc. unfold Rsqr in Hsc.
    pose proof (SIN_bound (theta i)) as Hs.
    pose proof (COS_bound (theta i)) as Hc.
    set (r := radius count i) in *.
    set (C := cos (theta i)) in *. set (S := sin (theta i)) in *.
    set (a := (g (5 * i)%nat - 0.5) * 0.3).
    set (b := (g (5 * i + 1)%nat - 0.5) * 0.3).
    assert (Ha' : -0.15 <= a <= 0.15) by (subst a; lra).
    assert (Hb' : -0.15 <= b <= 0.15) by (subst b; lra).
    assert (HaC : -0.15 <= a * C <= 0.15) by nra.
    assert (HbS : -0.15 <= b * S <= 0.15) by nra.
    assert (Hr2 : r * r <= 3.7 * 3.7) by nra.
    assert (Hcross : r * (a * C + b * S) <= 3.7 * 0.3) by nra.
    assert (Haa : a * a <= 0.0225) by nra.
    assert (Hbb : b * b <= 0.0225) by nra.
    replace ((r * C + a) * (r * C + a) + (r * S + b) * (r * S + b))
      with (r * r * (S * S + C * C) + 2 * (r * (a * C + b * S)) + a * a + b * b)
      by ring.
    rewrite Hsc. lra.
Qed.

Lemma tree_inside_snow_disc_witness :
  SnowSystem.horizontalDistance (get (tree (targets 4 (fun _ => 0.5))) (0 * 3))
                                (get (tree (targets 4 (fun _ => 0.5))) (0 * 3 + 2))
    < SnowSystem.accumulationRadius.
Proof.
  apply (tree_inside_snow_disc 4 (fun _ => 0.5) 0); [intros k; lra | lia].
Defined.

Lemma buffer_ext (a b : list R) :
  length a = length b ->
  (forall j, (j < length a)%nat -> get a j = get b j) -> a = b.
Proof.
  intros Hlen Hget. apply (nth_ext a b 0 0 Hlen). exact Hget.
Qed.

Lemma length_targetArray (count : nat) (g : Rng) (mode : InteractionState) :
  length (targetArray (targets count g) mode) = (count * 3)%nat.
Proof.
  unfold targets.
  destruct (place_loop count count
              (mkGen (Float32Array (count * 3)) (Float32Array (count * 3)) g))
    as (Ht & He & _).
  { cbn [tree]. now rewrite length_Float32Array. }
  cbn [tree explode] in Ht, He. rewrite length_Float32Array in Ht, He.
  unfold targetArray. now destruct mode.
Qed.

(** X16.  Instances that are on their targets stay there: started on the
    target buffer of the mode (as the component starts on the tree targets in
    Tree mode), the current positions are that buffer after any number of
    frames, whatever the frame times. *)
Theorem frames_at_rest (count : nat) (g : Rng) (mode : InteractionState)
    (deltas : nat -> R) (n : nat) :
  frames count (targets count g) mode deltas n
         (targetArray (targets count g) mode) =
  targetArray (targets count g) mode.
Proof.
  induction n as [|n IH]; [reflexivity|].
  cbn [frames]. rewrite IH.
  pose proof (length_targetArray count g mode) as Hlen.
  apply buffer_ext.
  - now rewrite length_useFrame.
  - intros j Hj. rewrite length_useFrame, Hlen in Hj.
    rewrite get_useFrame by assumption. unfold lerp. ring.
Qed.

(** X18.  The pulsing scale stays within 0.05 of its base: a sphere is
    drawn at a scale in [0.2, 0.3] and a cube at a scale in [0.25, 0.35], so
    no instance ever vanishes or turns inside out. *)
Theorem scale_bounds (type : ShapeType) (time : R) (i : nat) :
  (match type with sphere => 0.2 | cube => 0.25 end) <= scale type time i /\
  scale type time i <= (match type with sphere => 0.3 | cube => 0.35 end) /\
  0 < scale type time i.
Proof.
  unfold scale. pose proof (SIN_bound (time * 2 + INR i)).
  destruct type; repeat split; lra.
Qed.

End PlacementFacts.

(** ** The camera rotation *)

Module ExperienceFacts.
Import Experience.

(** X19.  From the hand to the rotation target.  A smoothed hand position
    within 1/600 of the dead zone [0.45, 0.55] leaves the camera on its idle
    speed, 1 in Tree mode and 0.2 in Exploded mode; further right the target
    speed is [48 * (x - 0.55)], further left it is [-48 * (0.45 - x)]. *)
Theorem targetSpeed_of_hand (x : R) (mode : InteractionState) :
  (0.45 - 1 / 600 <= x <= 0.55 + 1 / 600 ->
   targetSpeed (App.handleHandMove x) mode =
   match mode with Tree => 1 | Exploded => 0.2 end) /\
  (0.55 + 1 / 600 < x ->
   targetSpeed (App.handleHandMove x) mode = 48 * (x - 0.55)) /\
  (x < 0.45 - 1 / 600 ->
   targetSpeed (App.handleHandMove x) mode = - 48 * (0.45 - x)).
Proof.
  unfold targetSpeed.
  destruct (GestureFacts.handleHandMove_cases x) as [[H ->]|[[H ->]|[H ->]]];
    repeat split; intros Hx; try lra.
  - replace (gtb _ _) with false; [destruct mode; cbn [InteractionState_eqb]; lra|].
    symmetry. apply gtb_false. apply Rabs_le. lra.
  - replace (gtb _ _) with true; [lra|].
    symmetry. apply gtb_true. rewrite Rabs_left; lra.
  - replace (gtb _ _) with false; [destruct mode; cbn [InteractionState_eqb]; lra|].
    symmetry. apply gtb_false. rewrite Rabs_R0. lra.
  - replace (gtb _ _) with false; [destruct mode; cbn [InteractionState_eqb]; lra|].
    symmetry. apply gtb_false. apply Rabs_le. lra.
  - replace (gtb _ _) with true; [lra|].
    symmetry. apply gtb_true. rewrite Rabs_right; lra.
Qed.

Lemma targetSpeed_of_hand_witness :
  targetSpeed (App.handleHandMove 0.5) Tree = 1 /\
  targetSpeed (App.handleHandMove 0.8) Tree = 48 * (0.8 - 0.55) /\
  targetSpeed (App.handleHandMove 0.2) Exploded = - 48 * (0.45 - 0.2).
Proof.
  split; [|split].
  - apply (proj1 (targetSpeed_of_hand 0.5 Tree)). lra.
  - apply (proj1 (proj2 (targetSpeed_of_hand 0.8 Tree))). lra.
  - apply (proj2 (proj2 (targetSpeed_of_hand 0.2 Exploded))). lra.
Defined.

Lemma useFrame_error (speed rotationSpeed : R) (mode : InteractionState)
    (delta : R) :
  useFrame (Some speed) rotationSpeed mode delta =
  Some (targetSpeed rotationSpeed mode +
        (1 - 6 * delta) * (speed - targetSpeed rotationSpeed mode)).
Proof.
  unfold useFrame, MathUtils_lerp. f_equal.
  replace (delta * 6.0) with (6 * delta) by lra.
  destruct (eqb speed 0) eqn:E.
  - apply eqb_true in E. subst speed. ring.
  - ring.
Qed.

Lemma targetSpeed_range (rotationSpeed : R) (mode : InteractionState) :
  -2.7 <= rotationSpeed <= 2.7 ->
  -21.6 <= targetSpeed rotationSpeed mode <= 21.6.
Proof.
  intros Hr. unfold targetSpeed.
  destruct (gtb _ _); [lra|].
  destruct mode; cbn [InteractionState_eqb]; lra.
Qed.

(** X20.  The camera never spins away.  With a rotation command within 2.7
    (what a hand in view commands, so a target speed within 21.6), frame
    times between 1 ms and 1/6 s and an auto-rotate speed within 22 to start
    with, the speed is within 22 after any number of frames; without
    controls nothing happens.  The gap between 21.6 and 22 and the shortest
    frame time leave room for the rounding of the interpolation. *)
Theorem autoRotateSpeed_bounded (rotationSpeed : R) (mode : InteractionState)
    (delta speed : R) (n : nat) :
  -2.7 <= rotationSpeed <= 2.7 ->
  1 / 1000 <= delta <= 1 / 6 ->
  -22 <= speed <= 22 ->
  (exists v, frames rotationSpeed mode delta n (Some speed) = Some v /\
             -22 <= v <= 22) /\
  frames rotationSpeed mode delta n None = None.
Proof.
  intros Hr Hd Hs. split.
  - induction n as [|n (v & E & Hv)]; [now exists speed|].
    cbn [frames]. rewrite E, useFrame_error. eexists. split; [reflexivity|].
    pose proof (targetSpeed_range rotationSpeed mode Hr) as Ht.
    set (T := targetSpeed rotationSpeed mode) in *. nra.
  - induction n as [|n IH]; [reflexivity|]. cbn [frames]. now rewrite IH.
Qed.

(** Frames of 1/60 s from the default speed 2, the hand far right. *)
Lemma autoRotateSpeed_bounded_witness :
  (exists v, frames 2.7 Tree (1 / 60) 120 (Some 2) = Some v /\ -22 <= v <= 22) /\
  frames 2.7 Tree (1 / 60) 120 None = None.
Proof. apply autoRotateSpeed_bounded; lra. Defined.

End ExperienceFacts.

(** ** The star *)

Module TreeTopperFacts.
Import TreeTopper.

(** X21.  In Tree mode the star hovers in a band: a mounted frame keeps a
    height in [5.45, 5.75] in [5.45, 5.75], so the star, mounted at 5.6,
    stays in the band over any run of frames; and a mounted frame, in
    either mode, leaves the tilts within 0.1 and 0.05 of upright and the
    light intensity in [2.5, 5.5]. *)
Theorem star_hovers_in_band (times : list R) (star : Star) :
  5.45 <= position_y star <= 5.75 ->
  5.45 <= position_y (frames Tree times star) <= 5.75 /\
  (forall mode time,
     Rabs (rotation_z (useFrame true mode time star)) <= 0.1 /\
     Rabs (rotation_x (useFrame true mode time star)) <= 0.05 /\
     2.5 <= intensity (useFrame true mode time star) <= 5.5).
Proof.
  intros Hy. split.
  - unfold frames. revert star Hy.
    induction times as [|t ts IH]; intros star Hy; [exact Hy|].
    cbn [fold_left]. apply IH.
    unfold useFrame, MathUtils_lerp. cbn [InteractionState_eqb position_y].
    pose proof (SIN_bound (t * 2)). lra.
  - intros mode time. unfold useFrame. cbn [rotation_z rotation_x intensity].
    pose proof (SIN_bound (time * 2)). pose proof (COS_bound (time * 1.5)).
    pose proof (SIN_bound (time * 3)).
    repeat split; try apply Rabs_le; lra.
Qed.

Lemma star_hovers_in_band_witness :
  5.45 <= position_y (frames Tree [0; 0.016; 0.033] (mounted_at 0 0 4)) <= 5.75.
Proof.
  apply (star_hovers_in_band [0; 0.016; 0.033] (mounted_at 0 0 4)).
  cbn [mounted_at position_y]. lra.
Defined.

Lemma frames_exploded_height (times : list R) (star : Star) :
  position_y (frames Exploded times star) =
  20 - 0.95 ^ length times * (20 - position_y star).
Proof.
  unfold frames. revert star.
  induction times as [|t ts IH]; intros star.
  - cbn [fold_left length pow]. lra.
  - cbn [fold_left length pow]. rewrite IH.
    unfold useFrame, MathUtils_lerp. cbn [InteractionState_eqb position_y].
    set (p := 0.95 ^ length ts). nra.
Qed.

(** X22.  In Exploded mode the star climbs towards height 20 and stays
    below it.  Over any run of mounted frames a star that starts at a height
    in [5.45, 20) stays in [5.45, 20); a frame raises a star that is at or
    below 19.9 by at least 0.004; the new height does not depend on the
    elapsed time; and a hundred frames take the star to 19.9 or higher. *)
Theorem star_rises_when_exploded (times : list R) (star : Star) :
  5.45 <= position_y star < 20 ->
  5.45 <= position_y (frames Exploded times star) < 20 /\
  (forall time,
     position_y star <= 19.9 ->
     position_y star + 0.004 <= position_y (useFrame true Exploded time star)) /\
  (forall time time',
     position_y (useFrame true Exploded time star) =
     position_y (useFrame true Exploded time' star)) /\
  (length times = 100%nat -> 19.9 <= position_y (frames Exploded times star)).
Proof.
  intros Hy. rewrite frames_exploded_height.
  assert (Hp : 0 < 0.95 ^ length times) by (apply pow_lt; lra).
  assert (Hq : 0.95 ^ length times <= 1).
  { apply Rle_trans with (1 ^ length times); [apply pow_incr; lra|].
    rewrite pow1. lra. }
  split; [nra|]. split; [|split].
  - intros time Hlow. unfold useFrame, MathUtils_lerp.
    cbn [InteractionState_eqb position_y]. lra.
  - intros time time'. reflexivity.
  - intros E. rewrite E in *.
    assert (Hc : 0.95 ^ 100 <= 0.006) by (cbn [pow]; lra).
    nra.
Qed.

(** The star as it is mounted, and a hundred frames. *)
Lemma star_rises_when_exploded_witness :
  5.45 <= position_y (frames Exploded (replicate 100 0) (mounted_at 0 0 4)) < 20 /\
  position_y (mounted_at 0 0 4) + 0.004 <=
    position_y (useFrame true Exploded 0 (mounted_at 0 0 4)) /\
  19.9 <= position_y (frames Exploded (replicate 100 0) (mounted_at 0 0 4)).
Proof.
  destruct (star_rises_when_exploded (replicate 100 0) (mounted_at 0 0 4))
    as (Hband & Hrise & _ & Hhigh).
  - cbn [mounted_at position_y]. lra.
  - split; [exact Hband|]. split.
    + apply Hrise. cbn [mounted_at position_y]. lra.
    + apply Hhigh. apply length_replicate.
Defined.

Lemma norm_getPos (angle radius : R) :
  0 <= radius -> norm (getPos angle radius) = radius.
Proof.
  intros Hr. unfold norm, getPos. cbn [fst snd].
  replace (cos angle * radius * (cos angle * radius) +
           sin angle * radius * (sin angle * radius))
    with (radius * radius * (Rsqr (sin angle) + Rsqr (cos angle)))
    by (unfold Rsqr; ring).
  rewrite sin2_cos2, Rmult_1_r. now apply sqrt_square.
Qed.

Lemma within_tolerance (a : R) : Rabs (a - a) <= tolerance.
Proof.
  replace (a - a) with 0 by ring. rewrite Rabs_R0. unfold tolerance. lra.
Qed.

(** X23.  The outline of the star is closed and regular, up to the rounding
    of [Math.PI], [Math.sin] and [Math.cos]: it has 11 commands; it starts
    within [tolerance] of the tip that points up, (0, 0.65), and its last
    curve ends within [tolerance] of where it started; every command ends
    within [tolerance] of the circle of the tips (radius 0.65) or of the
    circle of the valleys (radius 0.35), and every control point lies within
    [tolerance] of distance 0.475 from the centre. *)
Theorem starShape_closed :
  length starShape = 11%nat /\
  Rabs (fst (end_point (nth 0 starShape (moveTo 0 0))) - 0) <= tolerance /\
  Rabs (snd (end_point (nth 0 starShape (moveTo 0 0))) - 0.65) <= tolerance /\
  Rabs (fst (end_point (List.last starShape (moveTo 0 0))) -
        fst (end_point (nth 0 starShape (moveTo 0 0)))) <= tolerance /\
  Rabs (snd (end_point (List.last starShape (moveTo 0 0))) -
        snd (end_point (nth 0 starShape (moveTo 0 0)))) <= tolerance /\
  Forall (fun c => Rabs (norm (end_point c) - outerRadius) <= tolerance \/
                   Rabs (norm (end_point c) - innerRadius) <= tolerance)
         starShape /\
  Forall (fun c => match control_point c with
                   | Some p => Rabs (norm p - 0.475) <= tolerance
                   | None => True
                   end) starShape.
Proof.
  assert (Hup : getPos startAngle outerRadius = (0, 0.65)).
  { unfold getPos, startAngle, outerRadius.
    rewrite cos_PI2, sin_PI2. f_equal; lra. }
  assert (Hlast : getPos (startAngle + (INR 4 + 1) * angleStep) outerRadius =
                  (0, 0.65)).
  { rewrite <- Hup. unfold getPos, angleStep, points.
    replace (startAngle + (INR 4 + 1) * (PI * 2 / INR 5))
      with (startAngle + 2 * INR 1 * PI) by (cbn [INR]; field).
    now rewrite cos_period, sin_period. }
  unfold starShape, exec, points, arm.
  cbn [for_loop bind ret fst snd app]. rewrite Hup. cbn [fst snd].
  split; [reflexivity|].
  cbn [nth List.last end_point]. rewrite Hlast. cbn [fst snd].
  repeat (split; [apply within_tolerance|]).
  assert (Ho : 0 <= outerRadius) by (unfold outerRadius; lra).
  assert (Hi : 0 <= innerRadius) by (unfold innerRadius; lra).
  assert (Hc : 0 <= (outerRadius + innerRadius) / 2 * 0.95)
    by (unfold outerRadius, innerRadius; lra).
  assert (Hcp : (outerRadius + innerRadius) / 2 * 0.95 = 0.475)
    by (unfold outerRadius, innerRadius; lra).
  split.
  - repeat (apply Forall_cons; split;
            [cbn [end_point];
             first [ left; rewrite <- surjective_pairing, norm_getPos by exact Ho;
                     apply within_tolerance
                   | right; rewrite <- surjective_pairing, norm_getPos by exact Hi;
                     apply within_tolerance
                   | left; rewrite <- Hup, norm_getPos by exact Ho;
                     apply within_tolerance ]|]).
    apply Forall_nil. exact I.
  - repeat (apply Forall_cons; split;
            [cbn [control_point];
             first [ exact I
                   | rewrite <- surjective_pairing, norm_getPos by exact Hc;
                     rewrite Hcp; apply within_tolerance ]|]).
    apply Forall_nil. exact I.
Qed.

End TreeTopperFacts.

(** ** The ribbons *)

Module RibbonFacts.
Import FloatingGifts.

Section Ribbon.

Variables (variant : RibbonVariant) (offset speed len width time : R).

Let body := write_segment variant offset speed len width time.
Let point := spine variant offset speed len width time.

Lemma length_write_segment (i : nat) (array : list R) :
  length (exec (body i) array) = length array.
Proof. unfold exec, body, write_segment. cbn [snd]. now rewrite !length_set. Qed.

Lemma length_segments_loop (m : nat) (array : list R) :
  length (exec (for_loop m body) array) = length array.
Proof.
  induction m as [|m IH]; [reflexivity|].
  now rewrite exec_for_loop_S, length_write_segment.
Qed.

(** The six slots a row is written to. *)
Lemma get_write_segment (i : nat) (array : list R) (j : nat) :
  (i * 6 + 6 <= length array)%nat ->
  get (exec (body i) array) j =
  if (j =? i * 6)%nat then fst (fst (point i)) - 0
  else if (j =? i * 6 + 1)%nat then snd (fst (point i)) - 0
  else if (j =? i * 6 + 2)%nat then snd (point i) - width / 2
  else if (j =? i * 6 + 3)%nat then fst (fst (point i)) + 0
  else if (j =? i * 6 + 4)%nat then snd (fst (point i)) + 0
  else if (j =? i * 6 + 5)%nat then snd (point i) + width / 2
  else get array j.
Proof.
  intros Hlen. unfold exec, body, write_segment, point. cbn [snd].
  replace (i * 2 * 3)%nat with (i * 6)%nat by lia.
  replace ((i * 2 + 1) * 3)%nat with (i * 6 + 3)%nat by lia.
  replace (i * 6 + 3 + 1)%nat with (i * 6 + 4)%nat by lia.
  replace (i * 6 + 3 + 2)%nat with (i * 6 + 5)%nat by lia.
  repeat match goal with
         | |- context [(j =? ?b)%nat] =>
             destruct (Nat.eqb_spec j b) as [->|?];
             [ repeat first
                 [ rewrite get_set_ne by lia
                 | rewrite get_set_eq by (rewrite ?length_set; lia) ];
               reflexivity |]
         end.
  now rewrite !get_set_ne by lia.
Qed.

(** After the first [m] rows: the rows below [m] hold the strip, the slots
    from [m * 6] on are as before. *)
Lemma segments_loop (m : nat) (array : list R) :
  (m * 6 <= length array)%nat ->
  (forall i, (i < m)%nat ->
     left_vertex (exec (for_loop m body) array) i =
       (fst (fst (point i)), snd (fst (point i)), snd (point i) - width / 2) /\
     right_vertex (exec (for_loop m body) array) i =
       (fst (fst (point i)), snd (fst (point i)), snd (point i) + width / 2)) /\
  (forall j, (m * 6 <= j)%nat ->
     get (exec (for_loop m body) array) j = get array j).
Proof.
  induction m as [|m IH]; intros Hlen.
  - rewrite exec_for_loop_0. split; [intros; lia | reflexivity].
  - destruct IH as [Hrows Hkeep]; [lia|].
    rewrite exec_for_loop_S.
    pose proof (length_segments_loop m array) as Hl.
    set (a := exec (for_loop m body) array) in *.
    split.
    + intros i Hi. unfold left_vertex, right_vertex.
      rewrite !get_write_segment by lia.
      destruct (Nat.eq_dec i m) as [->|Hne].
      * repeat match goal with
               | |- context [(?a =? ?b)%nat] =>
                   destruct (Nat.eqb_spec a b); try lia
               end.
        split; f_equal; try f_equal; lra.
      * repeat match goal with
               | |- context [(?a =? ?b)%nat] =>
                   destruct (Nat.eqb_spec a b); try lia
               end.
        apply Hrows. lia.
    + intros j Hj. rewrite get_write_segment by lia.
      repeat match goal with
             | |- context [(?a =? ?b)%nat] =>
                 destruct (Nat.eqb_spec a b); try lia
             end.
      apply Hkeep. lia.
Qed.

(** Two arrays that agree from slot [m * 6] on are equal after the first
    [m] rows are written. *)
Lemma segments_loop_agree (m : nat) (a b : list R) (j : nat) :
  (m * 6 <= length a)%nat -> (m * 6 <= length b)%nat ->
  ((j < m * 6)%nat \/ get a j = get b j) ->
  get (exec (for_loop m body) a) j = get (exec (for_loop m body) b) j.
Proof.
  revert j. induction m as [|m IH]; intros j Ha Hb Hj.
  - rewrite !exec_for_loop_0. destruct Hj; [lia | assumption].
  - rewrite !exec_for_loop_S.
    rewrite !get_write_segment by (rewrite length_segments_loop; lia).
    repeat match goal with
           | |- context [(?x =? ?y)%nat] =>
               destruct (Nat.eqb_spec x y); try reflexivity
           end.
    apply IH; [lia | lia|]. destruct Hj; [left; lia | now right].
Qed.

End Ribbon.

(** X24.  A ribbon frame is stateless: run on a position array of the
    plane (198 floats), it writes every slot, so its result does not depend
    on what the array held before, and it never writes outside the array (the
    array keeps its length).  Without a mesh nothing is written. *)
Theorem ribbon_frame_stateless (variant : RibbonVariant)
    (offset speed len width time : R) (a b : list R) :
  length a = vertex_floats -> length b = vertex_floats ->
  exec (DynamicRibbon_useFrame true variant offset speed len width time) a =
  exec (DynamicRibbon_useFrame true variant offset speed len width time) b /\
  length (exec (DynamicRibbon_useFrame true variant offset speed len width time) a) =
    vertex_floats /\
  exec (DynamicRibbon_useFrame false variant offset speed len width time) a = a.
Proof.
  intros Ha Hb. unfold DynamicRibbon_useFrame. cbn [negb].
  assert (Hv : vertex_floats = (S segments * 6)%nat) by reflexivity.
  split; [|split; [|reflexivity]].
  - apply PlacementFacts.buffer_ext.
    + now rewrite !length_segments_loop, Ha, Hb.
    + intros j Hj. rewrite length_segments_loop in Hj.
      apply segments_loop_agree; [lia | lia|]. left. lia.
  - now rewrite length_segments_loop.
Qed.

Lemma ribbon_frame_stateless_witness :
  exec (DynamicRibbon_useFrame true loop 0 1.5 1.5 0.18 0) (replicate 198 0) =
  exec (DynamicRibbon_useFrame true loop 0 1.5 1.5 0.18 0) (replicate 198 1).
Proof.
  apply (ribbon_frame_stateless loop 0 1.5 1.5 0.18 0
           (replicate 198 0) (replicate 198 1)).
  - apply length_replicate.
  - apply length_replicate.
Defined.

(** X25.  The strip has constant width and follows the spine: after a frame
    on a position array of the plane, row [i] (for [i] up to 32) has its
    left vertex at the spine point moved by [- width / 2] along z and its
    right vertex at the spine point moved by [+ width / 2] along z. *)
Theorem ribbon_rows (variant : RibbonVariant) (offset speed len width time : R)
    (array : list R) (i : nat) :
  length array = vertex_floats -> (i <= segments)%nat ->
  left_vertex
    (exec (DynamicRibbon_useFrame true variant offset speed len width time) array) i =
    (fst (fst (spine variant offset speed len width time i)),
     snd (fst (spine variant offset speed len width time i)),
     snd (spine variant offset speed len width time i) - width / 2) /\
  right_vertex
    (exec (DynamicRibbon_useFrame true variant offset speed len width time) array) i =
    (fst (fst (spine variant offset speed len width time i)),
     snd (fst (spine variant offset speed len width time i)),
     snd (spine variant offset speed len width time i) + width / 2).
Proof.
  intros Ha Hi. unfold DynamicRibbon_useFrame. cbn [negb].
  assert (Hv : vertex_floats = (S segments * 6)%nat) by reflexivity.
  apply segments_loop; lia.
Qed.

Lemma ribbon_rows_witness :
  left_vertex
    (exec (DynamicRibbon_useFrame true tail 4 1.8 1.95 0.18 0) (replicate 198 0)) 32 =
    (fst (fst (spine tail 4 1.8 1.95 0.18 0 32)),
     snd (fst (spine tail 4 1.8 1.95 0.18 0 32)),
     snd (spine tail 4 1.8 1.95 0.18 0 32) - 0.18 / 2).
Proof.
  apply (ribbon_rows tail 4 1.8 1.95 0.18 0 (replicate 198 0) 32).
  - apply length_replicate.
  - unfold segments. lia.
Defined.

Lemma segment_fraction (i : nat) :
  (i <= segments)%nat -> 0 <= INR i / INR segments <= 1.
Proof.
  intros Hi.
  assert (Hs : 0 < INR segments) by (apply lt_0_INR; unfold segments; lia).
  split.
  - apply Rmult_le_pos; [apply pos_INR | left; now apply Rinv_0_lt_compat].
  - apply (Rmult_le_reg_r (INR segments)); [exact Hs|].
    unfold Rdiv. rewrite Rmult_assoc, Rinv_l, Rmult_1_r, Rmult_1_l by lra.
    now apply le_INR.
Qed.

Lemma last_fraction : INR segments / INR segments = 1.
Proof.
  assert (Hs : 0 < INR segments) by (apply lt_0_INR; unfold segments; lia).
  unfold Rdiv. apply Rinv_r. lra.
Qed.

(** X26.  A loop ribbon comes out of the knot and goes back into it: at every
    time its spine starts at the origin and ends there up to the rounding of
    [Math.PI] and [Math.sin], within [tolerance] times the length on the x
    and the z axis and [tolerance] times the width on the y axis; and for a
    width that is not negative its spine never dips below the plane of the
    knot. *)
Theorem loop_anchored (offset speed len width time : R) (i : nat) :
  spine loop offset speed len width time 0 = (0, 0, 0) /\
  Rabs (fst (fst (spine loop offset speed len width time segments))) <=
    tolerance * Rabs len /\
  Rabs (snd (fst (spine loop offset speed len width time segments))) <=
    tolerance * Rabs width /\
  Rabs (snd (spine loop offset speed len width time segments)) <=
    tolerance * Rabs len /\
  (0 <= width -> (i <= segments)%nat ->
   0 <= snd (fst (spine loop offset speed len width time i))).
Proof.
  assert (Hend : spine loop offset speed len width time segments = (0, 0, 0)).
  { unfold spine. rewrite last_fraction.
    replace (1 * PI * 2) with (2 * PI) by ring. replace (1 * PI) with PI by ring.
    rewrite sin_2PI, cos_2PI, sin_PI. repeat f_equal; ring. }
  assert (Hzero : forall a, Rabs 0 <= tolerance * Rabs a).
  { intros a. rewrite Rabs_R0. pose proof (Rabs_pos a). unfold tolerance. nra. }
  rewrite Hend. cbn [fst snd].
  split; [|split; [apply Hzero|split; [apply Hzero|split; [apply Hzero|]]]].
  - unfold spine. replace (INR 0 / INR segments) with 0 by (cbn [INR]; lra).
    replace (0 * PI * 2) with 0 by ring. replace (0 * PI) with 0 by ring.
    rewrite sin_0, cos_0. repeat f_equal; ring.
  - intros Hw Hi. unfold spine. cbn [fst snd].
    pose proof (segment_fraction i Hi) as Ht.
    pose proof PI_RGT_0 as Hpi.
    assert (Hs : 0 <= sin (INR i / INR segments * PI)).
    { apply sin_ge_0; nra. }
    pose proof (SIN_bound (time * speed + offset)) as Hb.
    apply Rmult_le_pos; [apply Rmult_le_pos; lra | lra].
Qed.

(** The loop of a gift of size 1: its last row, and the row in the middle. *)
Lemma loop_anchored_witness :
  Rabs (snd (fst (spine loop 0 1.5 1.5 0.18 0 segments))) <=
    tolerance * Rabs 0.18 /\
  0 <= snd (fst (spine loop 0 1.5 1.5 0.18 0 16)).
Proof.
  destruct (loop_anchored 0 1.5 1.5 0.18 0 16) as (_ & _ & Hy & _ & Hup).
  split; [exact Hy|]. apply Hup; [lra | unfold segments; lia].
Defined.



End RibbonFacts.

(** ** The gifts *)

Module GiftFacts.
Import FloatingGifts.

Lemma GiftBox_frame_step (pos rot target : R * R * R) (mode : InteractionState)
    (index : nat) (time : R) (group : Group) :
  fst (fst (position (GiftBox_useFrame true pos rot target mode index time group))) =
    fst (fst (chased pos target mode)) +
    0.95 * (fst (fst (position group)) - fst (fst (chased pos target mode))) /\
  snd (position (GiftBox_useFrame true pos rot target mode index time group)) =
    snd (chased pos target mode) +
    0.95 * (snd (position group) - snd (chased pos target mode)) /\
  snd (fst (rotation (GiftBox_useFrame true pos rot target mode index time group))) =
    snd (fst (rotation group)) + 0.005.
Proof.
  unfold GiftBox_useFrame, Vector3_lerp, chased.
  cbn [negb position rotation fst snd].
  destruct (InteractionState_eqb mode Exploded); cbn [fst snd];
    repeat split; lra.
Qed.

(** The x and the z coordinate after a run of frames hang on the number of
    frames only. *)
Lemma GiftBox_frames_length (pos rot target : R * R * R) (mode : InteractionState)
    (index : nat) (times times' : list R) (group group' : Group) :
  length times = length times' ->
  fst (fst (position group)) = fst (fst (position group')) ->
  snd (position group) = snd (position group') ->
  fst (fst (position (GiftBox_frames pos rot target mode index times group))) =
  fst (fst (position (GiftBox_frames pos rot target mode index times' group'))) /\
  snd (position (GiftBox_frames pos rot target mode index times group)) =
  snd (position (GiftBox_frames pos rot target mode index times' group')).
Proof.
  unfold GiftBox_frames. revert times' group group'.
  induction times as [|t ts IH]; intros [|t' ts'] group group' Hlen Hx Hz;
    try discriminate.
  - split; assumption.
  - cbn [fold_left]. apply IH; [cbn [length] in Hlen; lia| |].
    + destruct (GiftBox_frame_step pos rot target mode index t group)
        as (-> & _ & _).
      destruct (GiftBox_frame_step pos rot target mode index t' group')
        as (-> & _ & _).
      now rewrite Hx.
    + destruct (GiftBox_frame_step pos rot target mode index t group)
        as (_ & -> & _).
      destruct (GiftBox_frame_step pos rot target mode index t' group')
        as (_ & -> & _).
      now rewrite Hz.
Qed.

(** X28.  A gift box and the frame rate.  Over any run of mounted frames
    with the mode held fixed: on the x and on the z axis the box stays
    between where it started and the place it chases (its base position in
    Tree mode, its explode target in Exploded mode), so it never overshoots;
    where it is on these axes hangs on the number of frames, not on their
    times; the box never turns back about the y axis; and without a group
    nothing changes. *)
Theorem gift_box_frames (pos rot target : R * R * R) (mode : InteractionState)
    (index : nat) (times : list R) (group : Group) :
  (Rmin (fst (fst (position group))) (fst (fst (chased pos target mode))) <=
   fst (fst (position (GiftBox_frames pos rot target mode index times group))) <=
   Rmax (fst (fst (position group))) (fst (fst (chased pos target mode)))) /\
  (Rmin (snd (position group)) (snd (chased pos target mode)) <=
   snd (position (GiftBox_frames pos rot target mode index times group)) <=
   Rmax (snd (position group)) (snd (chased pos target mode))) /\
  (forall times',
     length times' = length times ->
     fst (fst (position (GiftBox_frames pos rot target mode index times' group))) =
     fst (fst (position (GiftBox_frames pos rot target mode index times group))) /\
     snd (position (GiftBox_frames pos rot target mode index times' group)) =
     snd (position (GiftBox_frames pos rot target mode index times group))) /\
  snd (fst (rotation group)) <=
    snd (fst (rotation (GiftBox_frames pos rot target mode index times group))) /\
  (forall time, GiftBox_useFrame false pos rot target mode index time group = group).
Proof.
  split; [|split; [|split; [|split]]]; try reflexivity.
  - unfold GiftBox_frames. revert group.
    induction times as [|t ts IH]; intros group.
    + cbn [fold_left]. split; [apply Rmin_l | apply Rmax_l].
    + cbn [fold_left].
      specialize (IH (GiftBox_useFrame true pos rot target mode index t group)).
      destruct (GiftBox_frame_step pos rot target mode index t group)
        as (Hx & _ & _).
      rewrite Hx in IH. revert IH.
      set (x := fst (fst (position group))).
      set (c := fst (fst (chased pos target mode))).
      unfold Rmin, Rmax.
      repeat destruct (Rle_dec _ _); intros IH; lra.
  - unfold GiftBox_frames. revert group.
    induction times as [|t ts IH]; intros group.
    + cbn [fold_left]. split; [apply Rmin_l | apply Rmax_l].
    + cbn [fold_left].
      specialize (IH (GiftBox_useFrame true pos rot target mode index t group)).
      destruct (GiftBox_frame_step pos rot target mode index t group)
        as (_ & Hz & _).
      rewrite Hz in IH. revert IH.
      set (z := snd (position group)).
      set (c := snd (chased pos target mode)).
      unfold Rmin, Rmax.
      repeat destruct (Rle_dec _ _); intros IH; lra.
  - intros times' Hlen. now apply GiftBox_frames_length.
  - unfold GiftBox_frames. revert group.
    induction times as [|t ts IH]; intros group.
    + cbn [fold_left]. lra.
    + cbn [fold_left].
      specialize (IH (GiftBox_useFrame true pos rot target mode index t group)).
      destruct (GiftBox_frame_step pos rot target mode index t group)
        as (_ & _ & Hr).
      rewrite Hr in IH. lra.
Qed.

(** *** The colours *)

Lemma floor_below (u : R) (i : nat) :
  0 <= u < 1 -> (floor (u * (INR i + 1)) <= i)%nat.
Proof.
  intros Hu. unfold floor.
  pose proof (base_Int_part (u * (INR i + 1))) as [Hlo Hhi].
  pose proof (pos_INR i) as Hi.
  assert (Hx : u * (INR i + 1) < INR i + 1) by nra.
  assert (Hz : IZR (Int_part (u * (INR i + 1))) < IZR (Z.of_nat i + 1)).
  { rewrite plus_IZR, <- INR_IZR_INZ. cbn. lra. }
  apply lt_IZR in Hz. lia.
Qed.

Lemma swap_Permutation {A : Type} (d : A) (a : list A) (i j : nat) :
  (i < length a)%nat -> (j < length a)%nat -> Permutation (swap d a i j) a.
Proof.
  intros Hi Hj. apply Permutation_inj. split.
  - unfold swap. now rewrite !length_insert.
  - exists (fun x => if (x =? j)%nat then i else if (x =? i)%nat then j else x).
    split.
    + intros x y.
      destruct (Nat.eqb_spec x j), (Nat.eqb_spec x i),
               (Nat.eqb_spec y j), (Nat.eqb_spec y i); lia.
    + intros x. unfold swap.
      destruct (Nat.eqb_spec x j) as [->|Hxj].
      * rewrite list_lookup_insert_eq by (rewrite length_insert; lia).
        destruct (nth_lookup_or_length a i d) as [E|E]; [now rewrite E | lia].
      * rewrite list_lookup_insert_ne by congruence.
        destruct (Nat.eqb_spec x i) as [->|Hxi].
        -- rewrite list_lookup_insert_eq by lia.
           destruct (nth_lookup_or_length a j d) as [E|E]; [now rewrite E | lia].
        -- now rewrite list_lookup_insert_ne by congruence.
Qed.

Lemma shuffle_from_Permutation {A : Type} (d : A) (i : nat) (pool : list A)
    (g : Rng) :
  unit_interval g -> (i < length pool \/ i = 0)%nat ->
  Permutation (fst (shuffle_from d i pool g)) pool /\
  unit_interval (snd (shuffle_from d i pool g)).
Proof.
  revert pool g. induction i as [|k IH]; intros pool g Hg Hi.
  - cbn [shuffle_from ret fst snd]. split; [reflexivity | exact Hg].
  - cbn [shuffle_from]. unfold bind, draw.
    set (j := floor (g 0%nat * (INR (S k) + 1))).
    assert (Hj : (j <= S k)%nat) by (apply floor_below, Hg).
    destruct (IH (swap d pool (S k) j) (fun n => g (S n))) as [Hp Hg'].
    + intros n. apply Hg.
    + left. unfold swap. rewrite !length_insert. lia.
    + split; [|exact Hg'].
      rewrite Hp. apply swap_Permutation; lia.
Qed.

Lemma balanced_colours :
  balanced =
  ["#D40000"; "#B22222"; "#8B0000"; "#D40000"; "#B22222";
   "#006400"; "#228B22"; "#004d00"; "#006400"; "#228B22"]%string.
Proof. reflexivity. Qed.

(** X29.  The shuffle only reorders: for draws in [0, 1) every swap stays
    inside the pool, and the shuffled pool is a permutation of the pool it
    was given.  So the colour pool of the gifts keeps its ten entries, five
    reds and five greens. *)
Theorem shuffle_Permutation {A : Type} (d : A) (pool : list A) (g : Rng) :
  unit_interval g ->
  Permutation (fst (shuffle d pool g)) pool /\
  length (fst (shuffle ""%string balanced g)) = 10%nat /\
  Permutation (fst (shuffle ""%string balanced g))
    ["#D40000"; "#B22222"; "#8B0000"; "#D40000"; "#B22222";
     "#006400"; "#228B22"; "#004d00"; "#006400"; "#228B22"]%string.
Proof.
  intros Hg.
  assert (H : forall (B : Type) (e : B) (l : list B),
            Permutation (fst (shuffle e l g)) l).
  { intros B e l. unfold shuffle.
    apply shuffle_from_Permutation; [exact Hg|].
    destruct l; cbn [length]; lia. }
  split; [apply H|]. split.
  - rewrite (Permutation_length (H _ ""%string balanced)). reflexivity.
  - rewrite <- balanced_colours. apply H.
Qed.

Lemma shuffle_Permutation_witness :
  Permutation (fst (shuffle 0%nat [1; 2; 3; 4]%nat (fun _ => 0.5)))
              [1; 2; 3; 4]%nat.
Proof.
  apply (shuffle_Permutation 0%nat [1; 2; 3; 4]%nat (fun _ => 0.5)).
  intros n. lra.
Defined.

(** *** The placement *)

Lemma distanceTo_sym (p q : R * R * R) : distanceTo p q = distanceTo q p.
Proof. unfold distanceTo. f_equal. ring. Qed.

Lemma clear_of_Forall (pos : R * R * R) (items : list Gift) :
  clear_of pos items = true ->
  Forall (fun item => minDistance <= distanceTo pos (gift_position item)) items.
Proof.
  induction items as [|item rest IH]; intros H; [constructor|].
  cbn [clear_of] in H.
  destruct (ltb _ _) eqn:E; [discriminate|].
  apply ltb_false in E. constructor; [exact E | now apply IH].
Qed.

(** The attempts: when they end on [valid], the position is clear of every
    item and lies in the ring. *)
Lemma attempts_valid (remaining : nat) (items : list Gift) (valid : bool)
    (pos : R * R * R) (sz : R) (g : Rng) :
  unit_interval g ->
  (valid = true -> clear_of pos items = true /\ in_ring pos sz) ->
  unit_interval (snd (attempts remaining items valid pos sz g)) /\
  (fst (fst (fst (attempts remaining items valid pos sz g))) = true ->
   clear_of (snd (fst (fst (attempts remaining items valid pos sz g)))) items = true /\
   in_ring (snd (fst (fst (attempts remaining items valid pos sz g))))
           (snd (fst (attempts remaining items valid pos sz g)))).
Proof.
  revert valid pos sz g.
  induction remaining as [|k IH]; intros valid pos sz g Hg Hv.
  - cbn [attempts ret fst snd]. split; assumption.
  - cbn [attempts]. destruct valid.
    + cbn [ret fst snd]. split; assumption.
    + unfold bind, draw.
      apply IH; [intros n; apply Hg|].
      intros Hc. split; [exact Hc|].
      pose proof (Hg 1%nat) as H1. pose proof (Hg 2%nat) as H2.
      pose proof (Hg 3%nat) as H3.
      unfold in_ring. cbn [fst snd]. split; [|lra].
      set (r := 7 + g 1%nat * 8). set (a := g 0%nat * PI * 2).
      replace (cos a * r * (cos a * r) + sin a * r * (sin a * r))
        with (r * r * (Rsqr (sin a) + Rsqr (cos a))) by (unfold Rsqr; ring).
      rewrite sin2_cos2, Rmult_1_r, sqrt_square by (subst r; lra).
      subst r. lra.
Qed.

Lemma placed_snoc (pool : list string) (items : list Gift) (x : Gift) :
  placed pool items ->
  (length items < count)%nat ->
  clear_of (gift_position x) items = true ->
  index x = length items -> color x ∈ pool ->
  in_ring (gift_position x) (size x) ->
  placed pool (items ++ [x]).
Proof.
  intros (Hlen & Hsp & Hall) Hlt Hclear Hidx Hcol Hring.
  split; [rewrite length_app; cbn [length]; lia|]. split.
  - intros i j a b Hij Ha Hb.
    apply lookup_app_Some in Ha, Hb.
    destruct Hb as [Hb|[Hjn Hb]].
    + destruct Ha as [Ha|[Hin _]]; [now apply (Hsp i j)|].
      apply lookup_lt_Some in Hb. lia.
    + apply list_lookup_singleton_Some in Hb as [Hj0 <-].
      destruct Ha as [Ha|[Hin Ha]].
      * apply clear_of_Forall in Hclear.
        apply (Forall_lookup_1 _ _ _ _ Hclear Ha).
      * apply list_lookup_singleton_Some in Ha as [Ha _]. lia.
  - intros i a Ha. apply lookup_app_Some in Ha.
    destruct Ha as [Ha|[Hin Ha]]; [now apply Hall|].
    apply list_lookup_singleton_Some in Ha as [Ha <-].
    split; [lia|]. split; assumption.
Qed.

Lemma place_placed (remaining : nat) (pool : list string) (items : list Gift)
    (g : Rng) :
  unit_interval g -> (0 < length pool)%nat -> placed pool items ->
  placed pool (fst (place remaining pool items g)).
Proof.
  revert items g. induction remaining as [|k IH]; intros items g Hg Hpool Hinv.
  - exact Hinv.
  - cbn [place]. destruct (Nat.ltb_spec (length items) count) as [Hlt|Hge];
      [|exact Hinv].
    unfold bind at 1.
    destruct (attempts_valid 50 items false (0, 0, 0) 1.0 g Hg) as [Hg1 Hvalid];
      [discriminate|].
    destruct (attempts 50 items false (0, 0, 0) 1.0 g) as [[[valid pos] sz] g1].
    cbn [fst snd] in *. destruct valid.
    + unfold bind, draw. destruct (Hvalid eq_refl) as [Hclear Hring].
      apply IH; [intros n; apply Hg1 | exact Hpool|].
      apply placed_snoc; cbn [gift_position index color size]; try assumption.
      * reflexivity.
      * apply list_elem_of_lookup.
        exists (length items mod length pool)%nat.
        destruct (nth_lookup_or_length pool (length items mod length pool) ""%string)
          as [E|E]; [exact E|].
        pose proof (Nat.mod_upper_bound (length items) (length pool)). lia.
    + apply IH; assumption.
Qed.

Lemma palette (c : string) :
  c ∈ ["#D40000"; "#B22222"; "#8B0000"; "#D40000"; "#B22222";
       "#006400"; "#228B22"; "#004d00"; "#006400"; "#228B22"]%string ->
  c ∈ REDS ++ GREENS.
Proof.
  intros H. unfold REDS, GREENS. cbn [app].
  apply list_elem_of_In in H. apply list_elem_of_In.
  cbn [In] in *. intuition (subst; auto 10).
Qed.

(** The placement loop only appends. *)
Lemma place_prefix (remaining : nat) (pool : list string) (items : list Gift)
    (g : Rng) :
  exists rest, fst (place remaining pool items g) = items ++ rest.
Proof.
  revert items g. induction remaining as [|k IH]; intros items g.
  - exists []. cbn [place ret fst]. now rewrite app_nil_r.
  - cbn [place]. destruct (length items <? count)%nat.
    + unfold bind at 1.
      destruct (attempts 50 items false (0, 0, 0) 1.0 g) as [[[valid pos] sz] g1].
      cbn [fst snd]. destruct valid; [|apply IH].
      unfold bind, draw.
      match goal with
      | |- context [place k pool (items ++ [?x]) ?g'] =>
          destruct (IH (items ++ [x]) g') as [rest E]; exists (x :: rest)
      end.
      rewrite E, <- app_assoc. reflexivity.
    + exists []. cbn [ret fst]. now rewrite app_nil_r.
Qed.

(** The shuffle from index [i] down spends [i] draws. *)
Lemma shuffle_from_rng {A : Type} (d : A) (i : nat) (pool : list A) (g : Rng)
    (k : nat) :
  snd (shuffle_from d i pool g) k = g (i + k)%nat.
Proof.
  revert pool g k. induction i as [|i IH]; intros pool g k; [reflexivity|].
  cbn [shuffle_from]. unfold bind, draw. rewrite IH. reflexivity.
Qed.

(** An attempt that is clear of the items ends the [while] loop. *)
Lemma attempts_first (k : nat) (items : list Gift) (pos0 : R * R * R) (sz0 : R)
    (g : Rng) :
  clear_of (cos (g 0%nat * PI * 2) * (7 + g 1%nat * 8), (g 2%nat - 0.5) * 8,
            sin (g 0%nat * PI * 2) * (7 + g 1%nat * 8)) items = true ->
  attempts (S (S k)) items false pos0 sz0 g =
  ((true,
    (cos (g 0%nat * PI * 2) * (7 + g 1%nat * 8), (g 2%nat - 0.5) * 8,
     sin (g 0%nat * PI * 2) * (7 + g 1%nat * 8)),
    1.0 + g 3%nat * 0.8),
   fun n => g (4 + n)%nat).
Proof.
  intros H. cbn [attempts]. unfold bind, draw. rewrite H. reflexivity.
Qed.

(** An iteration of the placement loop whose first attempt is clear. *)
Lemma place_first (k : nat) (pool : list string) (items : list Gift) (g : Rng) :
  (length items < count)%nat ->
  clear_of (cos (g 0%nat * PI * 2) * (7 + g 1%nat * 8), (g 2%nat - 0.5) * 8,
            sin (g 0%nat * PI * 2) * (7 + g 1%nat * 8)) items = true ->
  place (S k) pool items g =
  place k pool
    (items ++
     [mkGift (cos (g 0%nat * PI * 2) * (7 + g 1%nat * 8), (g 2%nat - 0.5) * 8,
              sin (g 0%nat * PI * 2) * (7 + g 1%nat * 8))
             (g 4%nat * 0.2, g 5%nat * PI, g 6%nat * 0.2)
             (nth (length items mod length pool) pool ""%string)
             (1.0 + g 3%nat * 0.8) (length items)])
    (fun n => g (7 + n)%nat).
Proof.
  intros Hlt H. cbn [place].
  replace (length items <? count)%nat with true
    by (symmetry; now apply Nat.ltb_lt).
  unfold bind at 1. rewrite (attempts_first 48 items (0, 0, 0) 1.0 g H).
  reflexivity.
Qed.

(** Two gifts placed at the first attempt: when the draw of the first angle
    is 0 and the ten draws after it are 0.5, the first gift is put at
    (11, 0, 0), the second opposite to it at (-11, 0, 0), both of size
    1.4. *)
Lemma place_two (k : nat) (pool : list string) (g : Rng) :
  g 0%nat = 0 -> (forall n, (1 <= n <= 10)%nat -> g n = 0.5) ->
  exists a b rest,
    fst (place (S (S k)) pool [] g) = a :: b :: rest /\
    gift_position a = (11, 0, 0) /\ gift_position b = (-11, 0, 0) /\
    size a = 1.4 /\ size b = 1.4.
Proof.
  intros H0 Hn.
  assert (Ea : (cos (g 0%nat * PI * 2) * (7 + g 1%nat * 8), (g 2%nat - 0.5) * 8,
                sin (g 0%nat * PI * 2) * (7 + g 1%nat * 8)) = (11, 0, 0)).
  { rewrite H0, !Hn by lia. replace (0 * PI * 2) with 0 by ring.
    rewrite cos_0, sin_0. repeat f_equal; lra. }
  assert (Eb : (cos (g 7%nat * PI * 2) * (7 + g 8%nat * 8), (g 9%nat - 0.5) * 8,
                sin (g 7%nat * PI * 2) * (7 + g 8%nat * 8)) = (-11, 0, 0)).
  { rewrite !Hn by lia. replace (0.5 * PI * 2) with PI by lra.
    rewrite cos_PI, sin_PI. repeat f_equal; lra. }
  rewrite place_first; [|cbn [length]; unfold count; lia|reflexivity].
  rewrite place_first; cbn [app length Nat.add].
  - rewrite Ea, Eb, !Hn by lia.
    match goal with
    | |- context [place k pool [?a; ?b] ?g'] =>
        destruct (place_prefix k pool [a; b] g') as [rest ->];
        exists a, b, rest
    end.
    cbn [gift_position size app].
    repeat split; try reflexivity; rewrite ?Hn by lia; lra.
  - unfold count. lia.
  - rewrite Ea, Eb. cbn [clear_of gift_position].
    replace (ltb _ _) with false; [reflexivity|].
    symmetry. apply ltb_false. unfold distanceTo, minDistance. cbn [fst snd].
    replace ((-11 - 11) * (-11 - 11) + (0 - 0) * (0 - 0) + (0 - 0) * (0 - 0))
      with (22 * 22) by lra.
    rewrite sqrt_square by lra. lra.
Qed.

(** X30.  The gifts keep their distance.  For draws in [0, 1) the gifts
    memo holds at most ten gifts; any two of them are at least 3.5 apart;
    and each gift carries its place in the list as its index, one of the six
    colours of the palette, a size between 1 and 1.8, and a position between
    the radii 6.99 and 15.01 about the vertical axis (7 and 15, and a margin
    for rounding) at a height in [-4, 4). *)
Theorem gifts_spaced (g : Rng) :
  unit_interval g ->
  (length (fst (gifts g)) <= 10)%nat /\
  (forall i j a b,
     i <> j -> fst (gifts g) !! i = Some a -> fst (gifts g) !! j = Some b ->
     3.5 <= distanceTo (gift_position a) (gift_position b)) /\
  (forall i a,
     fst (gifts g) !! i = Some a ->
     index a = i /\ color a ∈ REDS ++ GREENS /\
     in_ring (gift_position a) (size a)).
Proof.
  intros Hg. unfold gifts, bind.
  destruct (shuffle_from_Permutation ""%string (length balanced - 1) balanced g Hg)
    as [Hperm Hg1].
  { left. rewrite balanced_colours. cbn [length]. lia. }
  fold (shuffle ""%string balanced g) in Hperm, Hg1.
  destruct (shuffle ""%string balanced g) as [pool g1]. cbn [fst snd] in *.
  assert (Hpool : (0 < length pool)%nat).
  { rewrite (Permutation_length Hperm), balanced_colours. cbn [length]. lia. }
  destruct (place_placed 100 pool [] g1 Hg1 Hpool) as (Hlen & Hsp & Hall).
  { split; [cbn [length]; unfold count; lia|]. split.
    - intros i j a b _ Ha. discriminate.
    - intros i a Ha. discriminate. }
  split; [exact Hlen|]. split.
  - intros i j a b Hij Ha Hb.
    destruct (Nat.lt_total i j) as [Hlt|[Heq|Hgt]]; [|congruence|].
    + rewrite distanceTo_sym. now apply (Hsp i j).
    + now apply (Hsp j i).
  - intros i a Ha. destruct (Hall i a Ha) as (Hi & Hc & Hr).
    split; [exact Hi|]. split; [|exact Hr].
    apply palette. rewrite <- balanced_colours, <- Hperm. exact Hc.
Qed.

(** The first angle drawn is 0 and every other draw is 0.5: the list starts
    with a gift at (11, 0, 0) and one at (-11, 0, 0), which are 3.5 or more
    apart and in the ring. *)
Lemma gifts_spaced_witness :
  exists a b,
    fst (gifts (fun n => if (n =? 9)%nat then 0 else 0.5)) !! 0%nat = Some a /\
    fst (gifts (fun n => if (n =? 9)%nat then 0 else 0.5)) !! 1%nat = Some b /\
    gift_position a = (11, 0, 0) /\ gift_position b = (-11, 0, 0) /\
    3.5 <= distanceTo (gift_position a) (gift_position b) /\
    index b = 1%nat /\ in_ring (gift_position b) (size b).
Proof.
  set (g := fun n : nat => if (n =? 9)%nat then 0 else 0.5).
  assert (Hg : unit_interval g).
  { intros n. unfold g. destruct (n =? 9)%nat; lra. }
  assert (E : exists a b rest,
             fst (gifts g) = a :: b :: rest /\
             gift_position a = (11, 0, 0) /\ gift_position b = (-11, 0, 0) /\
             size a = 1.4 /\ size b = 1.4).
  { unfold gifts, bind.
    pose proof (shuffle_from_rng ""%string (length balanced - 1) balanced g) as Hr.
    fold (shuffle ""%string balanced g) in Hr.
    destruct (shuffle ""%string balanced g) as [pool g1]. cbn [snd] in Hr.
    apply (place_two 98 pool g1).
    - rewrite Hr. reflexivity.
    - intros n Hn. rewrite Hr. unfold g.
      replace (length balanced - 1 + n =? 9)%nat with false; [reflexivity|].
      symmetry. apply Nat.eqb_neq. rewrite balanced_colours. cbn [length]. lia. }
  destruct E as (a & b & rest & E & Ha & Hb & _).
  exists a, b.
  assert (La : fst (gifts g) !! 0%nat = Some a) by now rewrite E.
  assert (Lb : fst (gifts g) !! 1%nat = Some b) by now rewrite E.
  destruct (gifts_spaced g Hg) as (_ & Hsp & Hall).
  destruct (Hall 1%nat b Lb) as (Hi & _ & Hring).
  split; [exact La|]. split; [exact Lb|]. split; [exact Ha|].
  split; [exact Hb|]. split; [|split; [exact Hi | exact Hring]].
  apply (Hsp 0%nat 1%nat a b); [lia | exact La | exact Lb].
Defined.

End GiftFacts.
